(** * CodeForcesRunner: the output comparator and its line diff

    A shallow embedding of the two revisions of the runner that the
    repository holds:

    - [src/main.go]: the language is a command-line argument and the diff is
      printed in the unified style ("- expected" / "+ actual");
    - [src/unnamed/part_001]: the language is detected from the extension,
      binaries go to a build directory and the diff is a two-column table.

    Go strings and byte slices are sequences of 8-bit bytes ([list ascii]).
    Go's [int] is taken at its width on 64-bit platforms: the 64-bit two's
    complement integer, written as [Z] with its wrap-around spelled out
    where the program does arithmetic on a value it was handed.
    The functions of Go's standard library that the comparator calls
    ([bytes.TrimSpace], [bytes.Equal], [strings.Split], the rune decoder
    behind them) are embedded next to the program, loop by loop. *)

From Stdlib Require Import ZArith String Ascii List Bool Lia.
Import ListNotations.

Local Open Scope Z_scope.

(** ** Bytes, strings and Go integers *)

Definition byte := ascii.

(** A Go [string] or [[]byte]: a nil slice and an empty one are both [[]]. *)
Definition gostring := list byte.

(** The numeric value of a byte, 0..255. *)
Definition b2z (c : byte) : Z := Z.of_N (N_of_ascii c).

(** A Go string literal. *)
Definition lit (s : string) : gostring := list_ascii_of_string s.

(** The byte 0x0A, written '\n' in the source. *)
Definition NL : byte := ascii_of_nat 10.

(** Go's [len]. *)
Definition len {A : Type} (s : list A) : Z := Z.of_nat (List.length s).

(** [s[i]] for an index the caller has checked to be in range. *)
Definition idx (s : gostring) (i : Z) : byte := nth (Z.to_nat i) s zero.

(** [s[lo:hi]] and [s[lo:]] for bounds the caller has checked. *)
Definition slice (s : gostring) (lo hi : Z) : gostring :=
  firstn (Z.to_nat (hi - lo)) (skipn (Z.to_nat lo) s).

Definition slice_from (s : gostring) (lo : Z) : gostring :=
  skipn (Z.to_nat lo) s.

Definition MinInt : Z := - 2 ^ 63.
Definition MaxInt : Z := 2 ^ 63 - 1.

(** Two's complement wrap-around of a 64-bit [int]. *)
Definition wrap_int (z : Z) : Z := (z + 2 ^ 63) mod 2 ^ 64 - 2 ^ 63.

Definition is_int (z : Z) : Prop := MinInt <= z <= MaxInt.

(** The Go runtime's [maxAlloc] on 64-bit platforms (48 address bits): no
    string or slice is longer. *)
Definition maxAlloc : Z := 2 ^ 48.

(** Go's [==] on strings: same length and same bytes. *)
Fixpoint string_eqb (a b : gostring) : bool :=
  match a, b with
  | [], [] => true
  | x :: a', y :: b' => Ascii.eqb x y && string_eqb a' b'
  | _, _ => false
  end.

(** Go's [!=] on strings. In the diff loops it tags a row: the row is
    differing when the test holds of its two lines, equal otherwise. *)
Definition differing (e a : gostring) : bool := negb (string_eqb e a).

(** ** unicode/utf8 *)

Module utf8.

Definition rune := Z.

Definition RuneError : rune := 65533.   (* U+FFFD *)
Definition RuneSelf : Z := 128.         (* 0x80 *)
Definition UTFMax : Z := 4.

Definition maskx : Z := 63.             (* 0b00111111 *)
Definition mask2 : Z := 31.             (* 0b00011111 *)
Definition mask3 : Z := 15.             (* 0b00001111 *)
Definition mask4 : Z := 7.              (* 0b00000111 *)

Definition locb : Z := 128.             (* 0b10000000 *)
Definition hicb : Z := 191.             (* 0b10111111 *)

(* Entries of the [first] table: the low 3 bits are the size of the
   encoding, the high 4 bits index [acceptRanges]. *)
Definition xx : Z := 241.               (* 0xF1: invalid, size 1 *)
Definition as_ : Z := 240.              (* 0xF0: ASCII, size 1 *)
Definition s1 : Z := 2.                 (* 0x02 *)
Definition s2 : Z := 19.                (* 0x13 *)
Definition s3 : Z := 3.                 (* 0x03 *)
Definition s4 : Z := 35.                (* 0x23 *)
Definition s5 : Z := 52.                (* 0x34 *)
Definition s6 : Z := 4.                 (* 0x04 *)
Definition s7 : Z := 68.                (* 0x44 *)

(** The table [first[256]], by the rows of its initialiser. *)
Definition first (c : Z) : Z :=
  if c <? 128 then as_            (* 0x00-0x7F *)
  else if c <? 194 then xx        (* 0x80-0xC1 *)
  else if c <? 224 then s1        (* 0xC2-0xDF *)
  else if c =? 224 then s2        (* 0xE0 *)
  else if c <? 237 then s3        (* 0xE1-0xEC *)
  else if c =? 237 then s4        (* 0xED *)
  else if c <? 240 then s3        (* 0xEE-0xEF *)
  else if c =? 240 then s5        (* 0xF0 *)
  else if c <? 244 then s6        (* 0xF1-0xF3 *)
  else if c =? 244 then s7        (* 0xF4 *)
  else xx.                        (* 0xF5-0xFF *)

Record acceptRange := { lo : Z; hi : Z }.

(** [acceptRanges[16]]: five rows are set, the others are zero. *)
Definition acceptRanges (i : Z) : acceptRange :=
  if i =? 0 then {| lo := locb; hi := hicb |}
  else if i =? 1 then {| lo := 160; hi := hicb |}
  else if i =? 2 then {| lo := locb; hi := 159 |}
  else if i =? 3 then {| lo := 144; hi := hicb |}
  else if i =? 4 then {| lo := locb; hi := 143 |}
  else {| lo := 0; hi := 0 |}.

(** [RuneStart]: the byte is not a continuation byte. *)
Definition RuneStart (b : byte) : bool :=
  negb (Z.land (b2z b) 192 =? 128).

Definition DecodeRune (p : gostring) : rune * Z :=
  let n := len p in
  if n <? 1 then (RuneError, 0) else
  let p0 := b2z (idx p 0) in
  let x := first p0 in
  if as_ <=? x then
    (* mask := rune(x) << 31 >> 31: all ones when the low bit of x is
       set (x = xx), zero otherwise (x = as) *)
    let mask := if Z.odd x then -1 else 0 in
    (Z.lor (Z.ldiff p0 mask) (Z.land RuneError mask), 1)
  else
  let sz := Z.land x 7 in
  let accept := acceptRanges (Z.shiftr x 4) in
  if n <? sz then (RuneError, 1) else
  let b1 := b2z (idx p 1) in
  if (b1 <? lo accept) || (hi accept <? b1) then (RuneError, 1) else
  if sz <=? 2 then
    (Z.lor (Z.shiftl (Z.land p0 mask2) 6) (Z.land b1 maskx), 2)
  else
  let b2 := b2z (idx p 2) in
  if (b2 <? locb) || (hicb <? b2) then (RuneError, 1) else
  if sz <=? 3 then
    (Z.lor (Z.lor (Z.shiftl (Z.land p0 mask3) 12)
                  (Z.shiftl (Z.land b1 maskx) 6))
           (Z.land b2 maskx), 3)
  else
  let b3 := b2z (idx p 3) in
  if (b3 <? locb) || (hicb <? b3) then (RuneError, 1) else
  (Z.lor (Z.lor (Z.lor (Z.shiftl (Z.land p0 mask4) 18)
                       (Z.shiftl (Z.land b1 maskx) 12))
                (Z.shiftl (Z.land b2 maskx) 6))
         (Z.land b3 maskx), 4).

(** The loop of [DecodeLastRune]:
    [for start--; start >= lim; start-- { if RuneStart(p[start]) { break } }],
    entered with [start] already decremented; the result is the value of
    [start] after the loop. *)
Fixpoint backtrack (fuel : nat) (p : gostring) (lim start : Z) : Z :=
  match fuel with
  | O => start
  | S fuel' =>
      if lim <=? start then
        if RuneStart (idx p start) then start
        else backtrack fuel' p lim (start - 1)
      else start
  end.

Definition DecodeLastRune (p : gostring) : rune * Z :=
  let end_ := len p in
  if end_ =? 0 then (RuneError, 0) else
  let start := end_ - 1 in
  let r := b2z (idx p start) in
  if r <? RuneSelf then (r, 1) else
  let lim := end_ - UTFMax in
  let lim := if lim <? 0 then 0 else lim in
  (* at most UTFMax - 1 bytes are looked at *)
  let start := backtrack 4 p lim (start - 1) in
  let start := if start <? 0 then 0 else start in
  let '(r, size) := DecodeRune (slice p start end_) in
  if negb (start + size =? end_) then (RuneError, 1) else (r, size).

(** The body of the loop of [RuneCountInString] advances by the width
    that [DecodeRune] reports at the same position; the count is the
    number of steps. *)
Fixpoint RuneCount_loop (fuel : nat) (s : gostring) (n : Z) : Z :=
  match fuel with
  | O => n
  | S fuel' =>
      match s with
      | [] => n
      | _ => RuneCount_loop fuel' (slice_from s (snd (DecodeRune s))) (n + 1)
      end
  end.

Definition RuneCountInString (s : gostring) : Z :=
  RuneCount_loop (List.length s) s 0.

End utf8.

(** ** unicode *)

Module unicode.

Definition MaxLatin1 : Z := 255.

(** A row of a [RangeTable]: the runes [Lo, Lo+Stride, ..., Hi]. *)
Record Range16 := { Lo : Z; Hi : Z; Stride : Z }.

(** [White_Space.R16]; [R32] is empty and [LatinOffset] is 2. *)
Definition White_Space_R16 : list Range16 :=
  [ {| Lo := 9;     Hi := 13;    Stride := 1 |};     (* 0x0009-0x000d *)
    {| Lo := 32;    Hi := 133;   Stride := 101 |};   (* 0x0020, 0x0085 *)
    {| Lo := 160;   Hi := 5760;  Stride := 5600 |};  (* 0x00a0, 0x1680 *)
    {| Lo := 8192;  Hi := 8202;  Stride := 1 |};     (* 0x2000-0x200a *)
    {| Lo := 8232;  Hi := 8233;  Stride := 1 |};     (* 0x2028-0x2029 *)
    {| Lo := 8239;  Hi := 8287;  Stride := 48 |};    (* 0x202f, 0x205f *)
    {| Lo := 12288; Hi := 12288; Stride := 1 |} ].   (* 0x3000 *)

Definition White_Space_LatinOffset : nat := 2.

(** [is16]: the rows are sorted and disjoint, so the row that holds
    [r], if any, is the only one whose bounds enclose it; the search
    order of the source (linear below 18 rows, binary above) does not
    change the answer. *)
Definition is16 (ranges : list Range16) (r : Z) : bool :=
  existsb (fun range_ =>
             (Lo range_ <=? r) && (r <=? Hi range_)
             && ((Stride range_ =? 1)
                 || ((r - Lo range_) mod Stride range_ =? 0)))
          ranges.

Definition uint32 (r : Z) : Z := r mod 2 ^ 32.

(** [isExcludingLatin(White_Space, r)]. *)
Definition isExcludingLatin_White_Space (r : Z) : bool :=
  let r16 := White_Space_R16 in
  let off := White_Space_LatinOffset in
  if (Nat.ltb off (List.length r16))
     && (uint32 r <=? Hi (last r16 {| Lo := 0; Hi := 0; Stride := 1 |}))
  then is16 (skipn off r16) (r mod 2 ^ 16)
  else false.

Definition IsSpace (r : Z) : bool :=
  if uint32 r <=? MaxLatin1 then
    (* case '\t', '\n', '\v', '\f', '\r', ' ', U+0085, U+00A0 *)
    (r =? 9) || (r =? 10) || (r =? 11) || (r =? 12) || (r =? 13)
    || (r =? 32) || (r =? 133) || (r =? 160)
  else isExcludingLatin_White_Space r.

End unicode.

(** ** bytes *)

Module bytes.

(** [asciiSpace[c] == 1]. *)
Definition asciiSpace (c : byte) : bool :=
  let c := b2z c in
  (c =? 9) || (c =? 10) || (c =? 11) || (c =? 12) || (c =? 13) || (c =? 32).

(** The loop of [indexFunc], from position [start]. *)
Fixpoint indexFunc_loop (fuel : nat) (s : gostring) (f : Z -> bool)
         (truth : bool) (start : Z) : Z :=
  match fuel with
  | O => -1
  | S fuel' =>
      if start <? len s then
        let '(r, wid) :=
          if utf8.RuneSelf <=? b2z (idx s start)
          then utf8.DecodeRune (slice_from s start)
          else (b2z (idx s start), 1) in
        if Bool.eqb (f r) truth then start
        else indexFunc_loop fuel' s f truth (start + wid)
      else -1
  end.

Definition indexFunc (s : gostring) (f : Z -> bool) (truth : bool) : Z :=
  indexFunc_loop (S (List.length s)) s f truth 0.

(** The loop of [lastIndexFunc], from position [i]. *)
Fixpoint lastIndexFunc_loop (fuel : nat) (s : gostring) (f : Z -> bool)
         (truth : bool) (i : Z) : Z :=
  match fuel with
  | O => -1
  | S fuel' =>
      if 0 <? i then
        let '(r, size) :=
          if utf8.RuneSelf <=? b2z (idx s (i - 1))
          then utf8.DecodeLastRune (slice s 0 i)
          else (b2z (idx s (i - 1)), 1) in
        let i := i - size in
        if Bool.eqb (f r) truth then i
        else lastIndexFunc_loop fuel' s f truth i
      else -1
  end.

Definition lastIndexFunc (s : gostring) (f : Z -> bool) (truth : bool) : Z :=
  lastIndexFunc_loop (S (List.length s)) s f truth (len s).

Definition TrimLeftFunc (s : gostring) (f : Z -> bool) : gostring :=
  let i := indexFunc s f false in
  if i =? -1 then [] else slice_from s i.

Definition TrimRightFunc (s : gostring) (f : Z -> bool) : gostring :=
  let i := lastIndexFunc s f false in
  let i :=
    if (0 <=? i) && (utf8.RuneSelf <=? b2z (idx s i))
    then i + snd (utf8.DecodeRune (slice_from s i))
    else i + 1 in
  slice s 0 i.

Definition TrimFunc (s : gostring) (f : Z -> bool) : gostring :=
  TrimRightFunc (TrimLeftFunc s f) f.

(** The two loops of [TrimSpace]. Each either runs to its end and yields
    the new bound ([inl]) or meets a byte that is not ASCII and returns
    from the function with the Unicode-aware trim of what is left
    ([inr]). *)
Fixpoint TrimSpace_start (fuel : nat) (s : gostring) (start : Z)
  : Z + gostring :=
  match fuel with
  | O => inl start
  | S fuel' =>
      if start <? len s then
        let c := idx s start in
        if utf8.RuneSelf <=? b2z c
        then inr (TrimFunc (slice_from s start) unicode.IsSpace)
        else if negb (asciiSpace c) then inl start
        else TrimSpace_start fuel' s (start + 1)
      else inl start
  end.

Fixpoint TrimSpace_stop (fuel : nat) (s : gostring) (start stop : Z)
  : Z + gostring :=
  match fuel with
  | O => inl stop
  | S fuel' =>
      if start <? stop then
        let c := idx s (stop - 1) in
        if utf8.RuneSelf <=? b2z c
        then inr (TrimFunc (slice s start stop) unicode.IsSpace)
        else if negb (asciiSpace c) then inl stop
        else TrimSpace_stop fuel' s start (stop - 1)
      else inl stop
  end.

Definition TrimSpace (s : gostring) : gostring :=
  match TrimSpace_start (S (List.length s)) s 0 with
  | inr t => t
  | inl start =>
      match TrimSpace_stop (S (List.length s)) s start (len s) with
      | inr t => t
      | inl stop =>
          if start =? stop then [] (* nil *) else slice s start stop
      end
  end.

(** [bytes.Equal(a, b)]: [string(a) == string(b)]. *)
Definition Equal (a b : gostring) : bool := string_eqb a b.

End bytes.

(** ** strings *)

Module strings.

(** [strings.Split(s, sep)] for a separator of one byte, which is how
    the program calls it ([sep] is "\n"): the pieces between the
    occurrences of [sep], in order, with the empty piece after a final
    separator; always at least one piece. [cur] is the piece being
    read, backwards. *)
Fixpoint Split_from (cur : gostring) (s : gostring) (sep : byte)
  : list gostring :=
  match s with
  | [] => [rev cur]
  | c :: s' =>
      if Ascii.eqb c sep then rev cur :: Split_from [] s' sep
      else Split_from (c :: cur) s' sep
  end.

Definition Split (s : gostring) (sep : byte) : list gostring :=
  Split_from [] s sep.

(** [strings.Join(elems, sep)]. *)
Fixpoint Join (elems : list gostring) (sep : gostring) : gostring :=
  match elems with
  | [] => []
  | [x] => x
  | x :: rest => x ++ sep ++ Join rest sep
  end.

(** [strings.Repeat(s, count)] for a count that is not negative. *)
Definition Repeat (s : gostring) (count : Z) : gostring :=
  concat (repeat s (Z.to_nat count)).

Definition HasSuffix (s suffix : gostring) : bool :=
  (len suffix <=? len s)
  && string_eqb (slice_from s (len s - len suffix)) suffix.

Definition TrimSuffix (s suffix : gostring) : gostring :=
  if HasSuffix s suffix then slice s 0 (len s - len suffix) else s.

End strings.

(** ** Effects: standard output, panics and the outside world *)

(** How a call ends: with a value, or with a run-time panic. *)
Inductive outcome (A : Type) : Type :=
| Ret (a : A)
| Panic.
Arguments Ret {A} a.
Arguments Panic {A}.

(** A computation that writes to standard output: the writes it made, in
    order (one element per call of [fmt.Println] or [fmt.Printf], which
    each issue one write), and how it ended. The writes made before a panic
    are kept. The results of the writes are dropped, as the program drops
    them. *)
Definition M (A : Type) : Type := (list gostring * outcome A)%type.

Definition ret {A : Type} (a : A) : M A := ([], Ret a).

Definition bind {A B : Type} (m : M A) (k : A -> M B) : M B :=
  match m with
  | (o, Ret a) => let '(o', r) := k a in (o ++ o', r)
  | (o, Panic) => (o, Panic)
  end.

Definition lift {A : Type} (r : outcome A) : M A := ([], r).

Declare Scope go_scope.
Delimit Scope go_scope with go.
Notation "x <- m ;; k" := (bind m (fun x => k))
  (at level 61, m at next level, right associativity) : go_scope.
Notation "m ;; k" := (bind m (fun _ => k))
  (at level 61, right associativity) : go_scope.
Local Open Scope go_scope.

Definition stdout {A : Type} (m : M A) : list gostring := fst m.
Definition result {A : Type} (m : M A) : outcome A := snd m.

Module fmt.

(** [fmt.Println(s)] for one string operand. *)
Definition Println (s : gostring) : M unit := ([s ++ [NL]], Ret tt).

(** [fmt.Printf]: one write of the formatted text. The text is built
    at each call from its format string, which is quoted there. *)
Definition Printf (formatted : gostring) : M unit := ([formatted], Ret tt).

(** The verb [%-*s] with width operand [wid]: the string, then blanks up
    to [|wid|] runes (a negative width operand also means left-justify). *)
Definition pad_left_justified (wid : Z) (s : gostring) : gostring :=
  s ++ repeat " "%char (Z.to_nat (Z.abs wid - utf8.RuneCountInString s)).

End fmt.

(** A Go [error] that is not nil, by its message. *)
Definition error := gostring.

(** [fmt.Errorf(prefix + ": %v", err)]. *)
Definition Errorf (prefix : string) (err : error) : error :=
  lit prefix ++ lit ": " ++ err.

(** What the operating system answers to the calls the runner makes. Each
    field is asked at the moment of the call; [None] is a nil error. *)
Record World := {
  verboseFlag : bool;                                  (* -verbose *)
  filepath_Base : gostring -> gostring;
  filepath_Ext : gostring -> gostring;
  filepath_Join : gostring -> gostring -> gostring;
  os_MkdirAll : gostring -> option error;
  compiler_Run : list gostring -> option error;        (* cmd.Run() of the build *)
  os_Open : gostring -> option error;
  os_Create : gostring -> option error;
  program_Run : list gostring -> option error;         (* cmd.Run() of the solution *)
  os_ReadFile : gostring -> gostring + error;
  os_RemoveAll : gostring -> option error
}.

(** [exec.Command(name, arg...)], by its [Args]. *)
Definition Command (name : gostring) (arg : list gostring) : list gostring :=
  name :: arg.

(** The outcome of the comparison, as the specification names it. *)
Inductive ComparisonResult := Match | Diff.

(** The test that both revisions of [compileAndRun] make on the two files
    they have read: [!bytes.Equal(bytes.TrimSpace(actual),
    bytes.TrimSpace(expected))] sends the run to the diff, the other
    branch reports a match. *)
Definition compare (expected actual : gostring) : ComparisonResult :=
  if negb (bytes.Equal (bytes.TrimSpace actual) (bytes.TrimSpace expected))
  then Diff else Match.

(** The two reads of a row of the diff loop:
    [var e, a string; if i < len(expLines) { e = expLines[i] };
     if i < len(actLines) { a = actLines[i] }]. *)
Definition lineAt (lines : list gostring) (i : Z) : gostring :=
  if i <? len lines then nth (Z.to_nat i) lines [] else [].

(** Early return on an error: [if err != nil { return fmt.Errorf(prefix +
    ": %v", err) }], then the rest of the function. *)
Definition check (e : option error) (prefix : string)
           (k : M (option error)) : M (option error) :=
  match e with
  | Some err => ret (Some (Errorf prefix err))
  | None => k
  end.

(** ** The runner of [src/main.go]: unified diff *)

Module Unified.

(** The loop of [diffLines]:
    [for i := 0; i < len(expLines) || i < len(actLines); i++]. *)
Fixpoint diffLines_loop (fuel : nat) (expLines actLines : list gostring)
         (i : Z) : M unit :=
  match fuel with
  | O => ret tt
  | S fuel' =>
      if (i <? len expLines) || (i <? len actLines) then
        let e := lineAt expLines i in
        let a := lineAt actLines i in
        (if differing e a then
           fmt.Printf (lit "- " ++ e ++ [NL]) ;;      (* "- %s\n", e *)
           fmt.Printf (lit "+ " ++ a ++ [NL])         (* "+ %s\n", a *)
         else ret tt) ;;
        diffLines_loop fuel' expLines actLines (i + 1)
      else ret tt
  end.

Definition diffLines (expected actual : gostring) : M unit :=
  let expLines := strings.Split expected NL in
  let actLines := strings.Split actual NL in
  fmt.Println (lit "--- expected_output") ;;
  fmt.Println (lit "+++ actual_output") ;;
  diffLines_loop (length expLines + length actLines) expLines actLines 0.

Definition compileAndRun (w : World)
           (lang sourceFile inputFile outputFile expectedOutputFile : gostring)
  : M (option error) :=
  let baseName :=
    strings.TrimSuffix (filepath_Base w sourceFile) (filepath_Ext w sourceFile) in
  (* switch lang: the executable's path and the build command, if any *)
  sw <- (if string_eqb lang (lit "go") then
           let execPath := lit "./" ++ baseName in
           fmt.Println (lit "Compiling Go...") ;;
           ret (inl (execPath,
                     Some (Command (lit "go")
                             [lit "build"; lit "-o"; execPath; sourceFile])))
         else if string_eqb lang (lit "cpp") then
           let execPath := lit "./" ++ baseName in
           fmt.Println (lit "Compiling C++...") ;;
           ret (inl (execPath,
                     Some (Command (lit "g++") [lit "-o"; execPath; sourceFile])))
         else if string_eqb lang (lit "rust") then
           let execPath := lit "./" ++ baseName in
           fmt.Println (lit "Compiling Rust...") ;;
           ret (inl (execPath,
                     Some (Command (lit "rustc") [lit "-o"; execPath; sourceFile])))
         else if string_eqb lang (lit "java") then
           fmt.Println (lit "Compiling Java...") ;;
           ret (inl (lit "java", Some (Command (lit "javac") [sourceFile])))
         else if string_eqb lang (lit "python") then
           fmt.Println (lit "Python doesn’t require compilation.") ;;
           ret (inl ([], None))
         else
           ret (inr (lit "unsupported language: " ++ lang))) ;;
  match sw with
  | inr err => ret (Some err)
  | inl (execPath, cmd) =>
  (* if lang != "python" { ... cmd.Run() ... } *)
  compiled <- (if negb (string_eqb lang (lit "python")) then
                 match cmd with
                 | Some args => ret (compiler_Run w args)
                 | None => lift Panic          (* nil pointer dereference *)
                 end
               else ret None) ;;
  check compiled "compilation failed" (
  fmt.Println (lit "Executing...") ;;
  check (os_Open w inputFile) "cannot open input file" (
  check (os_Create w outputFile) "cannot create output file" (
  let cmd :=
    if string_eqb lang (lit "go") || string_eqb lang (lit "cpp")
       || string_eqb lang (lit "rust")
    then Command execPath []
    else if string_eqb lang (lit "java")
    then Command (lit "java") [baseName]
    else (* "python" *) Command (lit "python3") [sourceFile] in
  check (program_Run w cmd) "execution failed" (
  fmt.Println (lit "Comparing outputs...") ;;
  match os_ReadFile w outputFile with
  | inr err => ret (Some (Errorf "cannot read actual output" err))
  | inl actual =>
  match os_ReadFile w expectedOutputFile with
  | inr err => ret (Some (Errorf "cannot read expected output" err))
  | inl expected =>
  match compare expected actual with
  | Diff =>
      fmt.Println (lit "Output differs from expected:") ;;
      diffLines expected actual
  | Match =>
      fmt.Println (lit "Output matches the expected output!")
  end ;;
  (* Cleanup: the results of os.Remove are dropped *)
  ret None
  end end))))
  end.

End Unified.

(** ** The runner of [src/unnamed/part_001]: table diff *)

Module Table.

Definition logVerbose (w : World) (formatted : gostring) : M unit :=
  if verboseFlag w
  then fmt.Printf (lit "[verbose] " ++ formatted ++ [NL])
  else ret tt.

Definition detectLang (w : World) (sourceFile : gostring) : gostring + error :=
  let ext := filepath_Ext w sourceFile in
  if string_eqb ext (lit ".go") then inl (lit "go")
  else if string_eqb ext (lit ".cpp") || string_eqb ext (lit ".cc")
          || string_eqb ext (lit ".cxx") then inl (lit "cpp")
  else if string_eqb ext (lit ".rs") then inl (lit "rust")
  else if string_eqb ext (lit ".java") then inl (lit "java")
  else if string_eqb ext (lit ".py") then inl (lit "python")
  else inr (lit "unsupported file extension: " ++ ext).

(** [s[:max-3] + "..."] panics when the bound [max-3] is negative or
    past the end of [s]. *)
Definition truncate (s : gostring) (max : Z) : outcome gostring :=
  if max <? len s then
    let hi := wrap_int (max - 3) in
    if (hi <? 0) || (len s <? hi) then Panic
    else Ret (slice s 0 hi ++ lit "...")
  else Ret s.

Definition red : gostring := ascii_of_nat 27 :: lit "[31m".     (* "\033[31m" *)
Definition green : gostring := ascii_of_nat 27 :: lit "[32m".   (* "\033[32m" *)
Definition reset : gostring := ascii_of_nat 27 :: lit "[0m".    (* "\033[0m" *)

Definition printColoredRow (expected actual : gostring) (width : Z) : M unit :=
  truncE <- lift (truncate expected width) ;;
  truncA <- lift (truncate actual width) ;;
  (* "║ %s%-*s%s ║ %s%-*s%s ║\n" *)
  fmt.Printf (lit "║ " ++ red ++ fmt.pad_left_justified width truncE ++ reset
              ++ lit " ║ " ++ green ++ fmt.pad_left_justified width truncA
              ++ reset ++ lit " ║" ++ [NL]).

(** The row of the table for two equal lines. *)
Definition printPlainRow (e a : gostring) (width : Z) : M unit :=
  te <- lift (truncate e (width - 2)) ;;
  ta <- lift (truncate a (width - 2)) ;;
  (* "║ %-*s ║ %-*s ║\n" *)
  fmt.Printf (lit "║ " ++ fmt.pad_left_justified (width - 2) te
              ++ lit " ║ " ++ fmt.pad_left_justified (width - 2) ta
              ++ lit " ║" ++ [NL]).

(** The loop of [diffLines]: [for i := 0; i < max; i++]. *)
Fixpoint diffLines_loop (fuel : nat) (expLines actLines : list gostring)
         (width i max : Z) : M unit :=
  match fuel with
  | O => ret tt
  | S fuel' =>
      if i <? max then
        let e := lineAt expLines i in
        let a := lineAt actLines i in
        (if differing e a
         then printColoredRow e a (width - 2)
         else printPlainRow e a width) ;;
        diffLines_loop fuel' expLines actLines width (i + 1) max
      else ret tt
  end.

Definition diffLines (expected actual : gostring) : M unit :=
  let expLines := strings.Split expected NL in
  let actLines := strings.Split actual NL in
  let width := 40 in
  let sep := strings.Repeat (lit "═") width in
  fmt.Printf (lit "╔" ++ sep ++ lit "╦" ++ sep ++ lit "╗" ++ [NL]) ;;
  fmt.Printf (lit "║ " ++ fmt.pad_left_justified (width - 2) (lit "Expected (-)")
              ++ lit " ║ " ++ fmt.pad_left_justified (width - 2) (lit "Actual (+)")
              ++ lit " ║" ++ [NL]) ;;
  fmt.Printf (lit "╠" ++ sep ++ lit "╬" ++ sep ++ lit "╣" ++ [NL]) ;;
  let max := len expLines in
  let max := if max <? len actLines then len actLines else max in
  diffLines_loop (Z.to_nat max) expLines actLines width 0 max ;;
  fmt.Printf (lit "╚" ++ sep ++ lit "╩" ++ sep ++ lit "╝" ++ [NL]).

Definition compileAndRun (w : World)
           (lang sourceFile inputFile outputFile expectedOutputFile : gostring)
           (cleanup : bool) : M (option error) :=
  let baseName :=
    strings.TrimSuffix (filepath_Base w sourceFile) (filepath_Ext w sourceFile) in
  let buildDir := lit "build" in
  check (os_MkdirAll w buildDir) "failed to create build directory" (
  logVerbose w (lit "Created build directory: " ++ buildDir) ;;
  (* switch lang: the executable's path and the build command, if any *)
  sw <- (if string_eqb lang (lit "go") then
           let execPath := filepath_Join w buildDir baseName in
           logVerbose w (lit "Compiling Go to " ++ execPath) ;;
           ret (inl (execPath,
                     Some (Command (lit "go")
                             [lit "build"; lit "-o"; execPath; sourceFile])))
         else if string_eqb lang (lit "cpp") then
           let execPath := filepath_Join w buildDir baseName in
           logVerbose w (lit "Compiling C++ to " ++ execPath) ;;
           ret (inl (execPath,
                     Some (Command (lit "g++") [lit "-o"; execPath; sourceFile])))
         else if string_eqb lang (lit "rust") then
           let execPath := filepath_Join w buildDir baseName in
           logVerbose w (lit "Compiling Rust to " ++ execPath) ;;
           ret (inl (execPath,
                     Some (Command (lit "rustc") [lit "-o"; execPath; sourceFile])))
         else if string_eqb lang (lit "java") then
           logVerbose w (lit "Compiling Java to " ++ buildDir) ;;
           ret (inl (lit "java",
                     Some (Command (lit "javac") [lit "-d"; buildDir; sourceFile])))
         else if string_eqb lang (lit "python") then
           logVerbose w (lit "Python script: " ++ sourceFile) ;;
           ret (inl ([], None))
         else
           ret (inr (lit "unsupported language: " ++ lang))) ;;
  match sw with
  | inr err => ret (Some err)
  | inl (execPath, cmd) =>
  (* if lang != "python" { ... cmd.Run() ... } *)
  compiled <- (if negb (string_eqb lang (lit "python")) then
                 match cmd with
                 | Some args =>
                     logVerbose w (lit "Running command: "
                                   ++ strings.Join args (lit " ")) ;;
                     ret (compiler_Run w args)
                 | None => lift Panic          (* nil pointer dereference *)
                 end
               else ret None) ;;
  check compiled "compilation failed" (
  check (os_Open w inputFile) "cannot open input file" (
  check (os_Create w outputFile) "cannot create output file" (
  fmt.Println (lit "Executing...") ;;
  let cmd :=
    if string_eqb lang (lit "go") || string_eqb lang (lit "cpp")
       || string_eqb lang (lit "rust")
    then Command execPath []
    else if string_eqb lang (lit "java")
    then Command (lit "java") [lit "-cp"; buildDir; baseName]
    else (* "python" *) Command (lit "python3") [sourceFile] in
  logVerbose w (lit "Running command: " ++ strings.Join cmd (lit " ")) ;;
  check (program_Run w cmd) "execution failed" (
  fmt.Println (lit "Comparing outputs...") ;;
  match os_ReadFile w outputFile with
  | inr err => ret (Some (Errorf "cannot read actual output file" err))
  | inl actual =>
  match os_ReadFile w expectedOutputFile with
  | inr err => ret (Some (Errorf "cannot read expected output file" err))
  | inl expected =>
  match compare expected actual with
  | Diff =>
      fmt.Println (lit "Output differs from expected:") ;;
      diffLines expected actual
  | Match =>
      fmt.Println (lit "Output matches the expected output!")
  end ;;
  (if cleanup then
     logVerbose w (lit "Removing build directory: " ++ buildDir) ;;
     match os_RemoveAll w buildDir with
     | Some err =>
         fmt.Printf (lit "Warning: failed to remove build directory: "
                     ++ err ++ [NL])
     | None => ret tt
     end
   else ret tt) ;;
  ret None
  end end))))
  end).

End Table.

(** ** What trimming means

    Removing white space at the front of a text is removing, one after
    the other, the runes at its front that are white space, each as
    the decoder reads it there; at the back, the same with the backward
    decoder. [Trimmed s t]: [t] is [s] without the white space at its front
    and then without the white space at its back. *)

Inductive LeftTrim : gostring -> gostring -> Prop :=
| LT_nil : LeftTrim [] []
| LT_stop (s : gostring) :
    s <> [] ->
    unicode.IsSpace (fst (utf8.DecodeRune s)) = false ->
    LeftTrim s s
| LT_step (s m : gostring) :
    s <> [] ->
    unicode.IsSpace (fst (utf8.DecodeRune s)) = true ->
    LeftTrim (slice_from s (snd (utf8.DecodeRune s))) m ->
    LeftTrim s m.

Inductive RightTrim : gostring -> gostring -> Prop :=
| RT_nil : RightTrim [] []
| RT_stop (p : gostring) :
    p <> [] ->
    unicode.IsSpace (fst (utf8.DecodeLastRune p)) = false ->
    RightTrim p p
| RT_step (p m : gostring) :
    p <> [] ->
    unicode.IsSpace (fst (utf8.DecodeLastRune p)) = true ->
    RightTrim (slice p 0 (len p - snd (utf8.DecodeLastRune p))) m ->
    RightTrim p m.

Definition Trimmed (s t : gostring) : Prop :=
  exists m, LeftTrim s m /\ RightTrim m t.

(** ** The rows of a diff

    The Diff Rows of two line sequences: one row per index below the
    length of the longer sequence, a line that is missing on one side
    read as the empty string. *)
Definition rowAt (expLines actLines : list gostring) (i : nat)
  : gostring * gostring :=
  (nth i expLines [], nth i actLines []).

Definition diffRows (expLines actLines : list gostring)
  : list (gostring * gostring) :=
  map (rowAt expLines actLines)
      (seq 0 (Nat.max (length expLines) (length actLines))).

(** The indices of the differing rows. *)
Definition differingIndices (expLines actLines : list gostring) : list nat :=
  filter (fun i => differing (nth i expLines []) (nth i actLines []))
         (seq 0 (Nat.max (length expLines) (length actLines))).

(** What the unified style writes for a row. *)
Definition unifiedRow (row : gostring * gostring) : list gostring :=
  let '(e, a) := row in
  if differing e a
  then [lit "- " ++ e ++ [NL]; lit "+ " ++ a ++ [NL]]
  else [].

(** What the table style writes for a row, in its 38 columns. *)
Definition tableRow (row : gostring * gostring) : M unit :=
  let '(e, a) := row in
  if differing e a
  then Table.printColoredRow e a 38
  else Table.printPlainRow e a 40.

(** The languages that [compileAndRun] knows. *)
Definition supported (lang : gostring) : Prop :=
  In lang [lit "go"; lit "cpp"; lit "rust"; lit "java"; lit "python"].

(** Every step of a run before the comparison succeeds. *)
Definition steps_succeed (w : World) : Prop :=
  (forall dir, os_MkdirAll w dir = None)
  /\ (forall args, compiler_Run w args = None)
  /\ (forall name, os_Open w name = None)
  /\ (forall name, os_Create w name = None)
  /\ (forall args, program_Run w args = None).

(** The frame of the table: the three writes before the rows and the one
    after them. *)
Definition tableRule (left mid right : string) : gostring :=
  let sep := strings.Repeat (lit "═") 40 in
  lit left ++ sep ++ lit mid ++ sep ++ lit right ++ [NL].

Definition tableHeader : list gostring :=
  [ tableRule "╔" "╦" "╗";
    lit "║ " ++ fmt.pad_left_justified 38 (lit "Expected (-)")
      ++ lit " ║ " ++ fmt.pad_left_justified 38 (lit "Actual (+)")
      ++ lit " ║" ++ [NL];
    tableRule "╠" "╬" "╣" ].

Definition tableFooter : gostring := tableRule "╚" "╩" "╝".

(** The two writes that open a unified diff. *)
Definition unifiedHeader : list gostring :=
  [ lit "--- expected_output" ++ [NL]; lit "+++ actual_output" ++ [NL] ].

(** [block] is written, as a whole and in order, somewhere in [out]. *)
Definition writes (out block : list gostring) : Prop :=
  exists pre post, out = pre ++ block ++ post.

(** What the comparison step of [compileAndRun] writes: on a mismatch the
    message and the diff, on a match the message alone. *)
Definition report (diffLines : gostring -> gostring -> M unit)
           (expected actual : gostring) : list gostring :=
  match compare expected actual with
  | Diff => (lit "Output differs from expected:" ++ [NL])
              :: stdout (diffLines expected actual)
  | Match => [lit "Output matches the expected output!" ++ [NL]]
  end.

(** A text made of white space only: the complete encodings of runes
    that are white space, one after the other. *)
Inductive Spaces : gostring -> Prop :=
| Spaces_nil : Spaces []
| Spaces_cons (u v : gostring) :
    u <> [] ->
    unicode.IsSpace (fst (utf8.DecodeRune u)) = true ->
    snd (utf8.DecodeRune u) = len u ->
    Spaces v ->
    Spaces (u ++ v).

(** A text with no white space at its front nor at its back. *)
Definition no_space_at_ends (t : gostring) : Prop :=
  t = []
  \/ (unicode.IsSpace (fst (utf8.DecodeRune t)) = false
      /\ unicode.IsSpace (fst (utf8.DecodeLastRune t)) = false).

(** ** Auxiliary definitions for the proofs *)

(** [DecodeRune] read off the shape of its argument. *)
Definition decode (p : gostring) : utf8.rune * Z :=
  match p with
  | [] => (utf8.RuneError, 0)
  | c0 :: t =>
      let p0 := b2z c0 in
      let x := utf8.first p0 in
      if utf8.as_ <=? x then ((if p0 <? 128 then p0 else utf8.RuneError), 1) else
      let sz := Z.land x 7 in
      let accept := utf8.acceptRanges (Z.shiftr x 4) in
      match t with
      | [] => (utf8.RuneError, 1)
      | c1 :: t1 =>
          let b1 := b2z c1 in
          if (b1 <? utf8.lo accept) || (utf8.hi accept <? b1) then (utf8.RuneError, 1) else
          if sz <=? 2 then
            (Z.lor (Z.shiftl (Z.land p0 utf8.mask2) 6) (Z.land b1 utf8.maskx), 2)
          else
          match t1 with
          | [] => (utf8.RuneError, 1)
          | c2 :: t2 =>
              let b2 := b2z c2 in
              if (b2 <? utf8.locb) || (utf8.hicb <? b2) then (utf8.RuneError, 1) else
              if sz <=? 3 then
                (Z.lor (Z.lor (Z.shiftl (Z.land p0 utf8.mask3) 12)
                              (Z.shiftl (Z.land b1 utf8.maskx) 6))
                       (Z.land b2 utf8.maskx), 3)
              else
              match t2 with
              | [] => (utf8.RuneError, 1)
              | c3 :: _ =>
                  let b3 := b2z c3 in
                  if (b3 <? utf8.locb) || (utf8.hicb <? b3) then (utf8.RuneError, 1) else
                  (Z.lor (Z.lor (Z.lor (Z.shiftl (Z.land p0 utf8.mask4) 18)
                                       (Z.shiftl (Z.land b1 utf8.maskx) 12))
                                (Z.shiftl (Z.land b2 utf8.maskx) 6))
                         (Z.land b3 utf8.maskx), 4)
              end
          end
      end
  end.

(** What follows position [e] of [s]: nothing, or a byte that can start
    a rune. *)
Definition starts_at (s : gostring) (e : Z) : Prop :=
  e = len s \/ utf8.RuneStart (idx s e) = true.

(** A world in which every step succeeds, the solution wrote "6\n" to
    out.txt and every other file holds "5\n". *)
Definition sample_world : World :=
  {| verboseFlag := true;
     filepath_Base := fun path => path;
     filepath_Ext := fun _ => lit ".py";
     filepath_Join := fun dir name => dir ++ lit "/" ++ name;
     os_MkdirAll := fun _ => None;
     compiler_Run := fun _ => None;
     os_Open := fun _ => None;
     os_Create := fun _ => None;
     program_Run := fun _ => None;
     os_ReadFile := fun name =>
                      if string_eqb name (lit "out.txt")
                      then inl (lit "6" ++ [NL])
                      else inl (lit "5" ++ [NL]);
     os_RemoveAll := fun _ => None |}.

(** ** The entry points

    [strings.ToLower]: a string of ASCII bytes is lowered byte by byte
    (and returned as it is when it has no upper-case letter); a string
    with a byte outside ASCII goes through [strings.Map(unicode.ToLower,
    s)], whose tables are not part of this development and which is taken
    as given. *)

Definition is_ascii (s : gostring) : bool :=
  forallb (fun c => b2z c <? utf8.RuneSelf) s.

(** ['A' <= c && c <= 'Z'] and [c += 'a' - 'A']. *)
Definition is_upper (c : byte) : bool := (65 <=? b2z c) && (b2z c <=? 90).

Definition lower_byte (c : byte) : byte :=
  if is_upper c then ascii_of_N (Z.to_N (b2z c + 32)) else c.

Definition ToLower (Map_ToLower : gostring -> gostring) (s : gostring)
  : gostring :=
  if is_ascii s then
    if negb (existsb is_upper s) then s else map lower_byte s
  else Map_ToLower s.

(** What the entry points ask beside the calls of [compileAndRun]:
    whether [os.Stat] of a path fails with an error that
    [os.IsNotExist] recognises, and the Unicode branch of
    [strings.ToLower]. *)
Record Process := {
  Stat_IsNotExist : gostring -> bool;
  Map_ToLower : gostring -> gostring
}.

(** The loop of both [main] functions over the files that must exist:
    [for _, f := range files { if _, err := os.Stat(f);
    os.IsNotExist(err) { ...; os.Exit(1) } }], then the rest of [main].
    The value of a run of [main] is the exit status of the process. *)
Fixpoint require_files (p : Process) (files : list gostring) (k : M Z) : M Z :=
  match files with
  | [] => k
  | f :: rest =>
      if Stat_IsNotExist p f then
        (* "Error: %s does not exist.\n" *)
        fmt.Printf (lit "Error: " ++ f ++ lit " does not exist." ++ [NL]) ;;
        ret 1                                            (* os.Exit(1) *)
      else require_files p rest k
  end.

Module UnifiedMain.

Definition usage : gostring :=
  lit "Usage: go run multi_lang_runner.go <lang> <source_file> <input_file> <output_file> <expected_output_file>".

(** [main] of [src/main.go], on [os.Args]. *)
Definition main (w : World) (p : Process) (osArgs : list gostring) : M Z :=
  if negb (len osArgs =? 6) then
    fmt.Println usage ;; ret 1                           (* os.Exit(1) *)
  else
  let lang := ToLower (Map_ToLower p) (nth 1 osArgs []) in
  let sourceFile := nth 2 osArgs [] in
  let inputFile := nth 3 osArgs [] in
  let outputFile := nth 4 osArgs [] in
  let expectedOutputFile := nth 5 osArgs [] in
  require_files p [sourceFile; inputFile; expectedOutputFile] (
    err <- Unified.compileAndRun w lang sourceFile inputFile outputFile
                                 expectedOutputFile ;;
    match err with
    | Some e =>
        fmt.Printf (lit "Error: " ++ e ++ [NL]) ;;       (* "Error: %v\n" *)
        ret 1                                            (* os.Exit(1) *)
    | None => ret 0
    end).

End UnifiedMain.

Module TableMain.

Definition usage : gostring :=
  lit "Usage: go run multi_lang_runner.go [--cleanup] [--verbose] <source_file> <input_file> <output_file> <expected_output_file>".

(** [main] of [src/unnamed/part_001], after [flag.Parse()]: [args] is
    [flag.Args()], [cleanupFlag] is [*cleanupFlag] and [*verboseFlag] is
    the world's. *)
Definition main (w : World) (p : Process) (cleanupFlag : bool)
           (args : list gostring) : M Z :=
  if negb (len args =? 4) then
    fmt.Println usage ;; ret 1                           (* os.Exit(1) *)
  else
  let sourceFile := nth 0 args [] in
  let inputFile := nth 1 args [] in
  let outputFile := nth 2 args [] in
  let expectedOutputFile := nth 3 args [] in
  match Table.detectLang w sourceFile with
  | inr err =>
      fmt.Println (lit "Error: " ++ err) ;;              (* Println("Error:", err) *)
      ret 1                                              (* os.Exit(1) *)
  | inl lang =>
  Table.logVerbose w (lit "Detected language: " ++ lang) ;;
  require_files p [sourceFile; inputFile; expectedOutputFile] (
    err <- Table.compileAndRun w lang sourceFile inputFile outputFile
                               expectedOutputFile cleanupFlag ;;
    match err with
    | Some e =>
        fmt.Printf (lit "Error: " ++ e ++ [NL]) ;;       (* "Error: %v\n" *)
        ret 1                                            (* os.Exit(1) *)
    | None => ret 0
    end)
  end.

End TableMain.

(** ** Definitions for the further properties *)

(** The world [w] with another answer to one kind of call. *)
Definition with_ReadFile (w : World) (f : gostring -> gostring + error) : World :=
  {| verboseFlag := verboseFlag w;
     filepath_Base := filepath_Base w;
     filepath_Ext := filepath_Ext w;
     filepath_Join := filepath_Join w;
     os_MkdirAll := os_MkdirAll w;
     compiler_Run := compiler_Run w;
     os_Open := os_Open w;
     os_Create := os_Create w;
     program_Run := program_Run w;
     os_ReadFile := f;
     os_RemoveAll := os_RemoveAll w |}.

Definition with_compiler_Run (w : World) (f : list gostring -> option error)
  : World :=
  {| verboseFlag := verboseFlag w;
     filepath_Base := filepath_Base w;
     filepath_Ext := filepath_Ext w;
     filepath_Join := filepath_Join w;
     os_MkdirAll := os_MkdirAll w;
     compiler_Run := f;
     os_Open := os_Open w;
     os_Create := os_Create w;
     program_Run := program_Run w;
     os_ReadFile := os_ReadFile w;
     os_RemoveAll := os_RemoveAll w |}.

Definition with_verbose (w : World) (b : bool) : World :=
  {| verboseFlag := b;
     filepath_Base := filepath_Base w;
     filepath_Ext := filepath_Ext w;
     filepath_Join := filepath_Join w;
     os_MkdirAll := os_MkdirAll w;
     compiler_Run := compiler_Run w;
     os_Open := os_Open w;
     os_Create := os_Create w;
     program_Run := program_Run w;
     os_ReadFile := os_ReadFile w;
     os_RemoveAll := os_RemoveAll w |}.

(** The number of newline bytes of a text. *)
Definition count_NL (s : gostring) : nat :=
  length (filter (fun c => Ascii.eqb c NL) s).

(** A text that is one line: it holds no newline byte. *)
Definition one_line (s : gostring) : Prop := ~ In NL s.

(** A write that is one line of output: a line and its newline. *)
Definition line_write (x : gostring) : Prop :=
  exists s, x = s ++ [NL] /\ one_line s.

(** The two messages that carry the verdict. *)
Definition matches_message : gostring :=
  lit "Output matches the expected output!" ++ [NL].

Definition differs_message : gostring :=
  lit "Output differs from expected:" ++ [NL].

(** A write of [logVerbose]. *)
Definition is_verbose_write (x : gostring) : bool :=
  string_eqb (firstn 10 x) (lit "[verbose] ").

(** The output without the writes of [logVerbose]. *)
Definition quiet (out : list gostring) : list gostring :=
  filter (fun x => negb (is_verbose_write x)) out.

(** A process whose files all exist. *)
Definition sample_process : Process :=
  {| Stat_IsNotExist := fun _ => false;
     Map_ToLower := fun s => s |}.

(** A world in which the build command fails. *)
Definition failing_build_world : World :=
  with_compiler_Run sample_world (fun _ => Some (lit "exit status 1")).

(** The first of [files] that does not exist, if any. *)
Definition first_missing (p : Process) (files : list gostring)
  : option gostring :=
  find (Stat_IsNotExist p) files.

(** What [main] writes before it exits because a file is missing. *)
Definition missing_message (f : gostring) : gostring :=
  lit "Error: " ++ f ++ lit " does not exist." ++ [NL].


(** A process in which the input file is missing. *)
Definition missing_input_process : Process :=
  {| Stat_IsNotExist := fun f => string_eqb f (lit "in.txt");
     Map_ToLower := fun s => s |}.

(** * Properties *)

(** ** Bytes and strings *)

Lemma b2z_range (c : byte) : 0 <= b2z c < 256.
Proof.
  unfold b2z. pose proof (N_ascii_bounded c). lia.
Qed.

Lemma string_eqb_refl (a : gostring) : string_eqb a a = true.
Proof.
  induction a as [|x a IH]; simpl; [reflexivity|].
  now rewrite Ascii.eqb_refl, IH.
Qed.

Lemma string_eqb_eq (a b : gostring) : string_eqb a b = true <-> a = b.
Proof.
  split; [|intros ->; apply string_eqb_refl].
  revert b; induction a as [|x a IH]; intros [|y b]; simpl; try discriminate; auto.
  rewrite andb_true_iff, Ascii.eqb_eq. intros [-> H]. f_equal; auto.
Qed.

Lemma string_eqb_neq (a b : gostring) : string_eqb a b = false <-> a <> b.
Proof.
  rewrite <- string_eqb_eq. destruct (string_eqb a b); split; congruence.
Qed.

Lemma len_nil {A} : len (@nil A) = 0.
Proof. reflexivity. Qed.

Lemma len_cons {A} (x : A) (l : list A) : len (x :: l) = 1 + len l.
Proof. unfold len; simpl length; lia. Qed.

Lemma len_app {A} (l1 l2 : list A) : len (l1 ++ l2) = len l1 + len l2.
Proof. unfold len; rewrite length_app; lia. Qed.

Lemma len_nonneg {A} (l : list A) : 0 <= len l.
Proof. unfold len; lia. Qed.

(** ** The rune decoder *)

Ltac each_byte c := destruct c as [[] [] [] [] [] [] [] []]; vm_compute; reflexivity.

Lemma RuneStart_range (c : byte) :
  utf8.RuneStart c = negb ((128 <=? b2z c) && (b2z c <=? 191)).
Proof. each_byte c. Qed.

Lemma asciiSpace_IsSpace (c : byte) :
  b2z c < 128 -> unicode.IsSpace (b2z c) = bytes.asciiSpace c.
Proof.
  intros H. revert H.
  destruct c as [[] [] [] [] [] [] [] []]; vm_compute; intros; congruence.
Qed.

Lemma IsSpace_RuneError : unicode.IsSpace utf8.RuneError = false.
Proof. reflexivity. Qed.

(** The classes of a first byte, with the row of [first] for each. *)
Lemma first_cases (c : Z) :
  0 <= c < 256 ->
  (c < 128 /\ utf8.first c = utf8.as_)
  \/ ((128 <= c < 194 \/ 245 <= c) /\ utf8.first c = utf8.xx)
  \/ (194 <= c < 224 /\ utf8.first c = utf8.s1)
  \/ (c = 224 /\ utf8.first c = utf8.s2)
  \/ ((225 <= c < 237 \/ 238 <= c < 240) /\ utf8.first c = utf8.s3)
  \/ (c = 237 /\ utf8.first c = utf8.s4)
  \/ (c = 240 /\ utf8.first c = utf8.s5)
  \/ (241 <= c < 244 /\ utf8.first c = utf8.s6)
  \/ (c = 244 /\ utf8.first c = utf8.s7).
Proof.
  intros H. unfold utf8.first.
  repeat match goal with
         | |- context [if ?a <? ?b then _ else _] => destruct (Z.ltb_spec a b)
         | |- context [if ?a =? ?b then _ else _] => destruct (Z.eqb_spec a b)
         end; lia.
Qed.

Ltac ev t := let v := eval vm_compute in t in try change t with v.

(** Reduce the table look-ups for a known row [x] of [first]. *)
Ltac row_consts x :=
  ev (utf8.as_ <=? x); ev (Z.odd x); ev (Z.land x 7);
  ev (utf8.lo (utf8.acceptRanges (Z.shiftr x 4)));
  ev (utf8.hi (utf8.acceptRanges (Z.shiftr x 4)));
  ev (2 <=? 2); ev (3 <=? 2); ev (4 <=? 2); ev (3 <=? 3); ev (4 <=? 3);
  cbv iota.

Ltac decode_tail t :=
  let c1 := fresh "c" in let c2 := fresh "c" in let c3 := fresh "c" in
  let t3 := fresh "t" in
  destruct t as [|c1 [|c2 [|c3 t3]]];
  rewrite ?len_cons, ?len_nil; try (pose proof (len_nonneg t3));
  unfold idx;
  change (Z.to_nat 1) with 1%nat; change (Z.to_nat 2) with 2%nat;
  change (Z.to_nat 3) with 3%nat; cbn [nth];
  match goal with
  | |- context [if ?a <? ?b then _ else _] =>
      lazymatch a with context [len] => idtac | context [0 + _] => idtac
                  | context [1 + _] => idtac end;
      destruct (Z.ltb_spec a b)
  end; try lia;
  repeat match goal with
         | |- context [if ?a || ?b then _ else _] => destruct (a || b)
         end;
  reflexivity.

Lemma DecodeRune_decode (p : gostring) : utf8.DecodeRune p = decode p.
Proof.
  destruct p as [|c0 t]; [reflexivity|].
  unfold utf8.DecodeRune, decode. cbv zeta.
  rewrite len_cons. pose proof (len_nonneg t) as Ht.
  destruct (Z.ltb_spec (1 + len t) 1); [lia|].
  change (idx (c0 :: t) 0) with c0.
  pose proof (b2z_range c0) as Hc.
  destruct (first_cases _ Hc) as
    [[Hr ->]|[[Hr ->]|[[Hr ->]|[[Hr ->]|[[Hr ->]|[[Hr ->]|[[Hr ->]|[[Hr ->]|[Hr ->]]]]]]]]].
  - row_consts utf8.as_. destruct (Z.ltb_spec (b2z c0) 128); [|lia].
    f_equal. rewrite Z.ldiff_0_r. apply Z.lor_0_r.
  - row_consts utf8.xx. destruct (Z.ltb_spec (b2z c0) 128); [lia|].
    f_equal. rewrite Z.ldiff_m1_r. reflexivity.
  - row_consts utf8.s1. decode_tail t.
  - row_consts utf8.s2. decode_tail t.
  - row_consts utf8.s3. decode_tail t.
  - row_consts utf8.s4. decode_tail t.
  - row_consts utf8.s5. decode_tail t.
  - row_consts utf8.s6. decode_tail t.
  - row_consts utf8.s7. decode_tail t.
Qed.

(** Case analysis on the row of [first] for the byte [c0], with the table
    look-ups reduced in each case. *)
Ltac by_row c0 :=
  let Hc := fresh "Hc" in
  let Hr := fresh "Hr" in
  pose proof (b2z_range c0) as Hc;
  destruct (first_cases _ Hc) as
    [[Hr ->]|[[Hr ->]|[[Hr ->]|[[Hr ->]|[[Hr ->]|[[Hr ->]|[[Hr ->]|[[Hr ->]|[Hr ->]]]]]]]]];
  [ row_consts utf8.as_ | row_consts utf8.xx | row_consts utf8.s1
  | row_consts utf8.s2 | row_consts utf8.s3 | row_consts utf8.s4
  | row_consts utf8.s5 | row_consts utf8.s6 | row_consts utf8.s7 ].

Ltac cmp_goal :=
  repeat match goal with
         | |- context [?a <? ?b] => destruct (Z.ltb_spec a b)
         | |- context [?a <=? ?b] => destruct (Z.leb_spec a b)
         end; cbn [orb andb negb].

Ltac cmp_in H :=
  repeat match type of H with
         | context [?a <? ?b] => destruct (Z.ltb_spec a b)
         | context [?a <=? ?b] => destruct (Z.leb_spec a b)
         end; cbn [orb andb negb] in H.

Lemma decode_size (p : gostring) :
  p <> [] -> 1 <= snd (decode p) <= len p.
Proof.
  destruct p as [|c0 t]; [congruence|intros _].
  unfold decode; cbv zeta. rewrite len_cons. pose proof (len_nonneg t).
  by_row c0;
    try (destruct (b2z c0 <? 128); cbn [snd]; lia);
    destruct t as [|c1 [|c2 [|c3 t3]]]; rewrite ?len_cons, ?len_nil;
    try (pose proof (len_nonneg t3));
    repeat match goal with
           | |- context [if ?a || ?b then _ else _] => destruct (a || b)
           end; cbn [snd]; lia.
Qed.

Lemma decode_ascii (c : byte) (t : gostring) :
  b2z c < 128 -> decode (c :: t) = (b2z c, 1).
Proof.
  intros H. unfold decode; cbv zeta.
  by_row c; try lia. destruct (Z.ltb_spec (b2z c) 128); [reflexivity|lia].
Qed.

(** A byte that cannot start an encoding, or whose encoding the next byte
    does not continue, decodes to the error rune of width 1. *)
Lemma decode_broken (c : byte) (t : gostring) :
  128 <= b2z c ->
  match t with [] => True | d :: _ => utf8.RuneStart d = true end ->
  decode (c :: t) = (utf8.RuneError, 1).
Proof.
  intros H Ht. unfold decode; cbv zeta.
  by_row c; try lia;
    try (destruct (Z.ltb_spec (b2z c) 128); [lia|reflexivity]);
    (destruct t as [|d t']; [reflexivity|]);
    rewrite RuneStart_range in Ht; cmp_in Ht; try discriminate;
    cmp_goal; try reflexivity; lia.
Qed.

Lemma decode_continuation (c : byte) (t : gostring) :
  utf8.RuneStart c = false -> decode (c :: t) = (utf8.RuneError, 1).
Proof.
  intros H. rewrite RuneStart_range in H. cmp_in H; try discriminate.
  unfold decode; cbv zeta.
  by_row c; try lia. destruct (Z.ltb_spec (b2z c) 128); [lia|reflexivity].
Qed.

Ltac or_ifs :=
  repeat match goal with
         | |- context [if ?a || ?b then _ else _] => destruct (a || b)
         end.

(** A complete encoding of two or more bytes is read the same whatever
    follows it. *)
Lemma decode_app (u t : gostring) (r n : Z) :
  decode u = (r, n) -> 2 <= n -> decode (u ++ t) = (r, n).
Proof.
  destruct u as [|c0 u]; [cbn; intros [= ? ?]; lia|].
  cbn [app]. unfold decode; cbv zeta.
  by_row c0;
    try (destruct (b2z c0 <? 128); intros [= ? ?]; lia);
    (destruct u as [|c1 u]; [intros [= ? ?]; lia|]); cbn [app];
    destruct ((b2z c1 <? _) || _); try (intros [= ? ?]; lia);
    try (intros H _; exact H);
    (destruct u as [|c2 u]; [intros [= ? ?]; lia|]); cbn [app];
    destruct ((b2z c2 <? _) || _); try (intros [= ? ?]; lia);
    try (intros H _; exact H);
    (destruct u as [|c3 u]; [intros [= ? ?]; lia|]); cbn [app];
    destruct ((b2z c3 <? _) || _); try (intros [= ? ?]; lia);
    try (intros H _; exact H).
Qed.

(** Bytes appended after a byte that starts a rune do not change how the
    text before them is read. *)
Lemma decode_app_start (u t : gostring) (d : byte) :
  u <> [] -> utf8.RuneStart d = true ->
  decode (u ++ d :: t) = decode u.
Proof.
  intros Hu Hd. rewrite RuneStart_range in Hd.
  assert (Hd' : b2z d < 128 \/ 191 < b2z d) by (cmp_in Hd; try discriminate; lia).
  clear Hd.
  destruct u as [|c0 u]; [congruence|clear Hu].
  cbn [app]. unfold decode; cbv zeta. unfold utf8.locb, utf8.hicb.
  by_row c0; try reflexivity;
    destruct u as [|c1 [|c2 [|c3 u]]]; cbn [app];
    cmp_goal; try reflexivity; lia.
Qed.

(** Cutting a text short either leaves its first rune as it was or breaks
    it into the error rune of width 1. *)
Lemma decode_prefix (u t : gostring) :
  u <> [] ->
  decode u = decode (u ++ t) \/ decode u = (utf8.RuneError, 1).
Proof.
  intros Hu. destruct u as [|c0 u]; [congruence|clear Hu].
  cbn [app]. unfold decode; cbv zeta.
  by_row c0; auto;
    destruct u as [|c1 [|c2 [|c3 u]]]; cbn [app]; auto;
    or_ifs; auto.
Qed.

(** The rune of a space is never the error rune, so a space is always a
    complete encoding that starts at a byte that can start one. *)
Lemma decode_space_start (p : gostring) :
  unicode.IsSpace (fst (decode p)) = true ->
  match p with [] => False | c :: _ => utf8.RuneStart c = true end.
Proof.
  destruct p as [|c t]; [cbn; discriminate|].
  destruct (utf8.RuneStart c) eqn:E; [reflexivity|].
  rewrite (decode_continuation _ _ E). cbn. discriminate.
Qed.

(** ** Slices *)

Lemma slice_0 (s : gostring) (hi : Z) : slice s 0 hi = firstn (Z.to_nat hi) s.
Proof. unfold slice. rewrite Z.sub_0_r. reflexivity. Qed.

Lemma slice_to_end (s : gostring) (lo : Z) :
  0 <= lo -> slice s lo (len s) = slice_from s lo.
Proof.
  intros H. unfold slice, slice_from, len.
  apply firstn_all2. rewrite length_skipn. lia.
Qed.

Lemma slice_full (s : gostring) : slice s 0 (len s) = s.
Proof. rewrite slice_0. unfold len. rewrite Nat2Z.id. apply firstn_all. Qed.

Lemma len_slice_from (s : gostring) (lo : Z) :
  0 <= lo <= len s -> len (slice_from s lo) = len s - lo.
Proof. intros H. unfold slice_from, len in *. rewrite length_skipn. lia. Qed.

Lemma len_slice (s : gostring) (lo hi : Z) :
  0 <= lo <= hi -> hi <= len s -> len (slice s lo hi) = hi - lo.
Proof.
  intros H1 H2. unfold slice, len in *.
  rewrite length_firstn, length_skipn. lia.
Qed.

Lemma idx_app_l (u t : gostring) (i : Z) :
  0 <= i < len u -> idx (u ++ t) i = idx u i.
Proof. intros H. unfold idx, len in *. apply app_nth1. lia. Qed.

Lemma idx_app_last (u : gostring) (c : byte) : idx (u ++ [c]) (len u) = c.
Proof.
  unfold idx, len. rewrite Nat2Z.id, app_nth2 by lia.
  now rewrite Nat.sub_diag.
Qed.

Lemma idx_slice_from (s : gostring) (lo : Z) :
  0 <= lo < len s ->
  slice_from s lo = idx s lo :: slice_from s (lo + 1).
Proof.
  intros H. unfold slice_from, idx, len in *.
  replace (Z.to_nat (lo + 1)) with (S (Z.to_nat lo)) by lia.
  assert (Hn : (Z.to_nat lo < length s)%nat) by lia.
  revert Hn. generalize (Z.to_nat lo). clear H.
  induction s as [|x s IH]; intros [|n] Hn; simpl in *; try lia; auto.
  apply IH. lia.
Qed.

Lemma slice_snoc (s : gostring) (lo hi : Z) :
  0 <= lo <= hi -> hi < len s ->
  slice s lo (hi + 1) = slice s lo hi ++ [idx s hi].
Proof.
  intros H1 H2. unfold slice.
  replace (Z.to_nat (hi + 1 - lo)) with (S (Z.to_nat (hi - lo))) by lia.
  assert (E : idx s hi = nth (Z.to_nat (hi - lo)) (skipn (Z.to_nat lo) s) zero).
  { unfold idx. rewrite nth_skipn. f_equal. lia. }
  rewrite E.
  assert (Hn : (Z.to_nat (hi - lo) < length (skipn (Z.to_nat lo) s))%nat).
  { rewrite length_skipn. unfold len in *. lia. }
  revert Hn. generalize (skipn (Z.to_nat lo) s) (Z.to_nat (hi - lo)).
  intros l n. revert l. induction n as [|n IH]; intros [|x l] Hn; simpl in *; try lia; auto.
  f_equal. apply IH. lia.
Qed.

(** ** The backward decoder *)

Lemma backtrack_le (fuel : nat) (p : gostring) (lim start : Z) :
  utf8.backtrack fuel p lim start <= start.
Proof.
  revert start. induction fuel as [|fuel IH]; intros start; simpl; [lia|].
  destruct (lim <=? start); [|lia].
  destruct (utf8.RuneStart _); [lia|]. specialize (IH (start - 1)). lia.
Qed.

Lemma DecodeLastRune_ascii (u : gostring) (c : byte) :
  b2z c < 128 -> utf8.DecodeLastRune (u ++ [c]) = (b2z c, 1).
Proof.
  intros H. unfold utf8.DecodeLastRune. cbv zeta.
  rewrite len_app, len_cons, len_nil. pose proof (len_nonneg u).
  destruct (Z.eqb_spec (len u + (1 + 0)) 0); [lia|].
  replace (len u + (1 + 0) - 1) with (len u) by lia.
  rewrite idx_app_last. unfold utf8.RuneSelf.
  destruct (Z.ltb_spec (b2z c) 128); [reflexivity|lia].
Qed.

(** What [DecodeLastRune] returns on a text that is not empty: a width
    within the text, and either the error rune of width 1 for a last byte
    that is not ASCII, or the rune that the forward decoder reads from the
    last [n] bytes, all [n] of them. *)
Lemma DecodeLastRune_spec (p : gostring) (r n : Z) :
  p <> [] -> utf8.DecodeLastRune p = (r, n) ->
  1 <= n <= len p
  /\ ((r = utf8.RuneError /\ n = 1 /\ 128 <= b2z (idx p (len p - 1)))
      \/ decode (slice_from p (len p - n)) = (r, n)).
Proof.
  intros Hp. unfold utf8.DecodeLastRune. cbv zeta.
  assert (Hl : 1 <= len p) by (destruct p; [congruence|rewrite len_cons; pose proof (len_nonneg p); lia]).
  destruct (Z.eqb_spec (len p) 0); [lia|].
  unfold utf8.RuneSelf.
  destruct (Z.ltb_spec (b2z (idx p (len p - 1))) 128) as [Ha|Ha].
  - intros [= <- <-]. split; [lia|right].
    rewrite (idx_slice_from p (len p - 1)) by lia.
    apply decode_ascii; assumption.
  - set (start := if utf8.backtrack _ _ _ _ <? 0 then 0 else utf8.backtrack _ _ _ _).
    assert (Hs : 0 <= start <= len p - 2 \/ (start = 0 /\ len p = 1)).
    { subst start.
      match goal with |- context [utf8.backtrack ?f ?q ?l ?s] =>
        pose proof (backtrack_le f q l s); destruct (Z.ltb_spec (utf8.backtrack f q l s) 0) end; lia. }
    clearbody start.
    rewrite DecodeRune_decode.
    destruct (decode (slice p start (len p))) as [r' size] eqn:E.
    assert (Hne : slice p start (len p) <> []).
    { intros C. apply (f_equal len) in C. rewrite len_slice, len_nil in C; lia. }
    pose proof (decode_size _ Hne) as Hsz. rewrite E in Hsz. cbn [snd] in Hsz.
    rewrite len_slice in Hsz by lia.
    destruct (Z.eqb_spec (start + size) (len p)) as [Heq|Hneq]; cbn [negb].
    + intros [= <- <-]. split; [lia|right].
      replace (len p - size) with start by lia.
      rewrite <- slice_to_end by lia. exact E.
    + intros [= <- <-]. split; [lia|left]. auto.
Qed.

(** ** Trimming as a relation *)

Lemma LeftTrim_fun (s m1 m2 : gostring) :
  LeftTrim s m1 -> LeftTrim s m2 -> m1 = m2.
Proof.
  intros H1. revert m2.
  induction H1 as [|s Hs Hsp|s m Hs Hsp H IH]; intros m2 H2;
    inversion H2; subst; try congruence.
  apply IH. assumption.
Qed.

Lemma RightTrim_fun (p m1 m2 : gostring) :
  RightTrim p m1 -> RightTrim p m2 -> m1 = m2.
Proof.
  intros H1. revert m2.
  induction H1 as [|p Hp Hsp|p m Hp Hsp H IH]; intros m2 H2;
    inversion H2; subst; try congruence.
  apply IH. assumption.
Qed.

Lemma Trimmed_fun (s t1 t2 : gostring) :
  Trimmed s t1 -> Trimmed s t2 -> t1 = t2.
Proof.
  intros (m1 & L1 & R1) (m2 & L2 & R2).
  rewrite (LeftTrim_fun _ _ _ L1 L2) in R1.
  exact (RightTrim_fun _ _ _ R1 R2).
Qed.

(** What is left after trimming the front does not start with a space. *)
Lemma LeftTrim_head (s m : gostring) :
  LeftTrim s m ->
  m = [] \/ unicode.IsSpace (fst (utf8.DecodeRune m)) = false.
Proof. induction 1; auto. Qed.

(** What is left after trimming the back is a prefix that does not end
    with a space. *)
Lemma RightTrim_prefix (p m : gostring) :
  RightTrim p m -> exists t, p = m ++ t.
Proof.
  induction 1 as [|p Hp Hsp|p m Hp Hsp H [t IH]].
  - now exists [].
  - exists []. now rewrite app_nil_r.
  - rewrite slice_0 in IH.
    exists (t ++ skipn (Z.to_nat (len p - snd (utf8.DecodeLastRune p))) p).
    rewrite app_assoc, <- IH. symmetry. apply firstn_skipn.
Qed.

Lemma RightTrim_fixed (p m : gostring) : RightTrim p m -> RightTrim m m.
Proof. induction 1; auto using RT_nil, RT_stop. Qed.

Lemma RightTrim_tail (p m : gostring) :
  RightTrim p m ->
  m = [] \/ unicode.IsSpace (fst (utf8.DecodeLastRune m)) = false.
Proof. induction 1; auto. Qed.

(** Trimming what is already trimmed changes nothing, at the front and
    at the back. *)
Lemma Trimmed_fixed_both (s t : gostring) :
  Trimmed s t -> LeftTrim t t /\ RightTrim t t.
Proof.
  intros (m & L & R). split; [|exact (RightTrim_fixed _ _ R)].
  destruct t as [|c t]; [constructor|].
  apply LT_stop; [discriminate|].
  destruct (RightTrim_prefix _ _ R) as [x ->].
  destruct (LeftTrim_head _ _ L) as [E|E]; [discriminate|].
  rewrite DecodeRune_decode in *.
  destruct (decode_prefix (c :: t) x) as [P|P]; [discriminate| |]; rewrite P; auto.
Qed.

Lemma Trimmed_fixed (s t : gostring) : Trimmed s t -> Trimmed t t.
Proof. intros H. exists t. now apply (Trimmed_fixed_both s). Qed.

(** ** The loops of [bytes.TrimFunc] *)

Lemma slice_from_slice_from (s : gostring) (a b : Z) :
  0 <= a -> 0 <= b -> slice_from (slice_from s a) b = slice_from s (a + b).
Proof.
  intros Ha Hb. unfold slice_from. rewrite skipn_skipn. f_equal. lia.
Qed.

Lemma slice_from_nil (s : gostring) (lo : Z) :
  len s <= lo -> slice_from s lo = [].
Proof. intros H. unfold slice_from, len in *. apply skipn_all2. lia. Qed.

(** The short cut that the loops take for an ASCII byte gives what the
    decoder gives. *)
Lemma indexFunc_rune (s : gostring) (start : Z) :
  0 <= start < len s ->
  (if utf8.RuneSelf <=? b2z (idx s start)
   then utf8.DecodeRune (slice_from s start)
   else (b2z (idx s start), 1))
  = utf8.DecodeRune (slice_from s start).
Proof.
  intros H. unfold utf8.RuneSelf.
  destruct (Z.leb_spec 128 (b2z (idx s start))); [reflexivity|].
  rewrite DecodeRune_decode, (idx_slice_from s start) by lia.
  symmetry. apply decode_ascii. lia.
Qed.

Lemma indexFunc_loop_spec (fuel : nat) (s : gostring) (start : Z) :
  0 <= start <= len s -> len s - start < Z.of_nat fuel ->
  let i := bytes.indexFunc_loop fuel s unicode.IsSpace false start in
  LeftTrim (slice_from s start) (if i =? -1 then [] else slice_from s i).
Proof.
  revert start. induction fuel as [|fuel IH]; intros start Hs Hf; [lia|].
  cbn [bytes.indexFunc_loop].
  destruct (Z.ltb_spec start (len s)) as [Hlt|Hge].
  - rewrite indexFunc_rune by lia.
    assert (Hne : slice_from s start <> []).
    { rewrite (idx_slice_from s start) by lia. discriminate. }
    destruct (utf8.DecodeRune (slice_from s start)) as [r wid] eqn:E.
    pose proof (decode_size _ Hne) as Hw.
    rewrite <- DecodeRune_decode, E, len_slice_from in Hw by lia. cbn [snd] in Hw.
    destruct (unicode.IsSpace r) eqn:Hr; cbn [Bool.eqb].
    + cbv zeta. apply LT_step; [assumption|now rewrite E|].
      rewrite E. cbn [snd]. rewrite slice_from_slice_from by lia.
      apply IH; lia.
    + cbv zeta. destruct (Z.eqb_spec start (-1)); [lia|].
      apply LT_stop; [assumption|now rewrite E].
  - cbv zeta. rewrite slice_from_nil by lia. cbn. constructor.
Qed.

Lemma TrimLeftFunc_spec (s : gostring) :
  LeftTrim s (bytes.TrimLeftFunc s unicode.IsSpace).
Proof.
  unfold bytes.TrimLeftFunc, bytes.indexFunc.
  pose proof (indexFunc_loop_spec (S (length s)) s 0) as H.
  cbv zeta in *. unfold slice_from at 1 in H. cbn [Z.to_nat skipn] in H.
  apply H; unfold len; lia.
Qed.

Lemma slice_nonempty (s : gostring) (i : Z) :
  0 < i <= len s -> slice s 0 i <> [].
Proof.
  intros H C. apply (f_equal len) in C.
  rewrite len_slice in C by lia. unfold len in C. cbn in C. lia.
Qed.

Lemma idx_slice_0 (s : gostring) (i k : Z) :
  0 <= k < i -> i <= len s -> idx (slice s 0 i) k = idx s k.
Proof.
  intros H1 H2. rewrite slice_0. unfold idx.
  rewrite <- (firstn_skipn (Z.to_nat i) s) at 2.
  symmetry. apply app_nth1. rewrite length_firstn. unfold len in *. lia.
Qed.

Lemma slice_slice_0 (s : gostring) (i k : Z) :
  0 <= k <= i -> slice (slice s 0 i) 0 k = slice s 0 k.
Proof.
  intros H. rewrite !slice_0, firstn_firstn. f_equal. lia.
Qed.

Lemma slice_from_slice_0 (s : gostring) (i k : Z) :
  0 <= k <= i -> i <= len s ->
  slice_from s k = slice_from (slice s 0 i) k ++ slice_from s i.
Proof.
  intros H1 H2. rewrite slice_0. unfold slice_from.
  rewrite <- (firstn_skipn (Z.to_nat i) s) at 1.
  rewrite skipn_app, length_firstn.
  f_equal. 
  replace (Z.to_nat k - Nat.min (Z.to_nat i) (length s))%nat with 0%nat
    by (unfold len in *; lia).
  reflexivity.
Qed.

Lemma lastIndexFunc_rune (s : gostring) (i : Z) :
  0 < i <= len s ->
  (if utf8.RuneSelf <=? b2z (idx s (i - 1))
   then utf8.DecodeLastRune (slice s 0 i)
   else (b2z (idx s (i - 1)), 1))
  = utf8.DecodeLastRune (slice s 0 i).
Proof.
  intros H. unfold utf8.RuneSelf.
  destruct (Z.leb_spec 128 (b2z (idx s (i - 1)))); [reflexivity|].
  replace i with (i - 1 + 1) at 2 by lia.
  rewrite slice_snoc by lia.
  symmetry. apply DecodeLastRune_ascii. lia.
Qed.

Lemma lastIndexFunc_loop_spec (fuel : nat) (s : gostring) (i : Z) :
  0 <= i <= len s -> i < Z.of_nat fuel -> starts_at s i ->
  let j := bytes.lastIndexFunc_loop fuel s unicode.IsSpace false i in
  exists e,
    0 <= e <= i
    /\ RightTrim (slice s 0 i) (slice s 0 e)
    /\ starts_at s e
    /\ ((j = -1 /\ e = 0)
        \/ (0 <= j < e
            /\ j = e - snd (utf8.DecodeLastRune (slice s 0 e))
            /\ unicode.IsSpace (fst (utf8.DecodeLastRune (slice s 0 e))) = false)).
Proof.
  revert i. induction fuel as [|fuel IH]; intros i Hi Hf Hst; [lia|].
  cbn [bytes.lastIndexFunc_loop].
  destruct (Z.ltb_spec 0 i) as [Hpos|Hz].
  - rewrite lastIndexFunc_rune by lia.
    pose proof (slice_nonempty s i ltac:(lia)) as Hne.
    destruct (utf8.DecodeLastRune (slice s 0 i)) as [r size] eqn:E.
    destruct (DecodeLastRune_spec _ _ _ Hne E) as [Hsz Hcase].
    rewrite len_slice in Hsz, Hcase by lia. rewrite Z.sub_0_r in Hsz, Hcase.
    cbv zeta.
    destruct (unicode.IsSpace r) eqn:Hr; cbn [Bool.eqb].
    + (* a space: the loop goes on from its first byte *)
      assert (Hst' : starts_at s (i - size)).
      { right. destruct Hcase as [(-> & _ & _)|Hd]; [discriminate|].
        pose proof (decode_space_start (slice_from (slice s 0 i) (i - size))) as S.
        rewrite Hd in S. specialize (S Hr).
        rewrite (idx_slice_from (slice s 0 i) (i - size)) in S
          by (rewrite len_slice; lia).
        rewrite idx_slice_0 in S by lia. exact S. }
      destruct (IH (i - size) ltac:(lia) ltac:(lia) Hst')
        as (e & He & HR & Hse & Hj).
      exists e. split; [lia|]. split; [|split; assumption].
      apply RT_step; [assumption|now rewrite E|].
      rewrite E. cbn [snd]. rewrite len_slice, Z.sub_0_r by lia.
      rewrite slice_slice_0 by lia. exact HR.
    + exists i. split; [lia|]. split; [|split; [assumption|]].
      * apply RT_stop; [assumption|now rewrite E].
      * right. rewrite E. cbn [fst snd]. split; [lia|]. split; [lia|assumption].
  - cbv zeta. exists 0. assert (i = 0) by lia. subst i.
    split; [lia|]. split; [constructor|]. split; [assumption|]. left. auto.
Qed.

Lemma decode_after_last (s : gostring) (e : Z) (r n : Z) :
  0 < e <= len s -> starts_at s e ->
  utf8.DecodeLastRune (slice s 0 e) = (r, n) ->
  (if (0 <=? e - n) && (utf8.RuneSelf <=? b2z (idx s (e - n)))
   then e - n + snd (utf8.DecodeRune (slice_from s (e - n)))
   else e - n + 1) = e.
Proof.
  intros He Hst E.
  pose proof (slice_nonempty s e ltac:(lia)) as Hne.
  destruct (DecodeLastRune_spec _ _ _ Hne E) as [Hsz Hcase].
  rewrite len_slice in Hsz, Hcase by lia. rewrite Z.sub_0_r in Hsz, Hcase.
  assert (Htail : match slice_from s e with
                  | [] => True | d :: _ => utf8.RuneStart d = true end).
  { destruct Hst as [->|Hst]; [now rewrite slice_from_nil by lia|].
    destruct (Z.eq_dec e (len s)) as [->|]; [now rewrite slice_from_nil by lia|].
    rewrite (idx_slice_from s e) by lia. exact Hst. }
  assert (Hsplit : slice_from s (e - n)
                   = slice_from (slice s 0 e) (e - n) ++ slice_from s e)
    by (apply slice_from_slice_0; lia).
  assert (Hhead : slice_from (slice s 0 e) (e - n)
                  = idx s (e - n) :: slice_from (slice s 0 e) (e - n + 1)).
  { rewrite (idx_slice_from (slice s 0 e) (e - n)) by (rewrite len_slice; lia).
    now rewrite idx_slice_0 by lia. }
  destruct (Z.leb_spec 0 (e - n)); [|lia]. unfold utf8.RuneSelf.
  destruct (Z.leb_spec 128 (b2z (idx s (e - n)))) as [Hhi|Hlo]; cbn [andb].
  - rewrite DecodeRune_decode, Hsplit.
    destruct (Z.eq_dec n 1) as [->|Hn].
    + (* one byte that is not ASCII: the error rune, whatever follows *)
      rewrite Hhead. replace (e - 1 + 1) with e by lia.
      rewrite (slice_from_nil (slice s 0 e) e) by (rewrite len_slice; lia).
      cbn [app]. rewrite decode_broken by assumption. cbn [snd]. lia.
    + destruct Hcase as [(_ & -> & _)|Hd]; [lia|].
      rewrite (decode_app _ _ _ _ Hd) by lia. cbn [snd]. lia.
  - destruct Hcase as [(_ & -> & Hb)|Hd].
    + rewrite idx_slice_0 in Hb by lia. lia.
    + rewrite Hhead, decode_ascii in Hd by lia. injection Hd as _ <-. lia.
Qed.

Lemma TrimRightFunc_spec (s : gostring) :
  RightTrim s (bytes.TrimRightFunc s unicode.IsSpace).
Proof.
  unfold bytes.TrimRightFunc, bytes.lastIndexFunc. cbv zeta.
  pose proof (len_nonneg s) as Hl.
  destruct (lastIndexFunc_loop_spec (S (length s)) s (len s))
    as (e & He & HR & Hst & Hj);
    [lia|unfold len; lia|now left|].
  rewrite slice_full in HR.
  destruct Hj as [[-> ->]|(Hj & Hje & Hsp)].
  - cbn [Z.leb andb]. exact HR.
  - destruct (utf8.DecodeLastRune (slice s 0 e)) as [r n] eqn:E.
    cbn [snd] in Hje. rewrite Hje.
    rewrite (decode_after_last s e r n); [exact HR|lia|assumption|assumption].
Qed.

Lemma TrimFunc_spec (s : gostring) : Trimmed s (bytes.TrimFunc s unicode.IsSpace).
Proof.
  exists (bytes.TrimLeftFunc s unicode.IsSpace).
  split; [apply TrimLeftFunc_spec|apply TrimRightFunc_spec].
Qed.

(** ** The ASCII loops of [bytes.TrimSpace] *)

Lemma slice_from_1 (c : byte) (t : gostring) : slice_from (c :: t) 1 = t.
Proof. reflexivity. Qed.

Lemma LeftTrim_ascii_space (c : byte) (t m : gostring) :
  b2z c < 128 -> bytes.asciiSpace c = true ->
  LeftTrim t m -> LeftTrim (c :: t) m.
Proof.
  intros Hc Hsp H.
  assert (E : utf8.DecodeRune (c :: t) = (b2z c, 1))
    by (rewrite DecodeRune_decode; now apply decode_ascii).
  apply LT_step; [discriminate| |]; rewrite E; cbn [fst snd].
  - now rewrite asciiSpace_IsSpace.
  - exact H.
Qed.

Lemma LeftTrim_ascii_stop (c : byte) (t : gostring) :
  b2z c < 128 -> bytes.asciiSpace c = false -> LeftTrim (c :: t) (c :: t).
Proof.
  intros Hc Hsp. apply LT_stop; [discriminate|].
  rewrite DecodeRune_decode, decode_ascii by assumption. cbn [fst].
  now rewrite asciiSpace_IsSpace.
Qed.

Lemma slice_0_snoc (u : gostring) (c : byte) :
  slice (u ++ [c]) 0 (len (u ++ [c]) - 1) = u.
Proof.
  rewrite slice_0.
  replace (Z.to_nat (len (u ++ [c]) - 1)) with (length u + 0)%nat
    by (rewrite len_app; unfold len; cbn [length]; lia).
  rewrite firstn_app_2. cbn. apply app_nil_r.
Qed.

Lemma RightTrim_ascii_space (c : byte) (u m : gostring) :
  b2z c < 128 -> bytes.asciiSpace c = true ->
  RightTrim u m -> RightTrim (u ++ [c]) m.
Proof.
  intros Hc Hsp H.
  pose proof (DecodeLastRune_ascii u c Hc) as E.
  apply RT_step; [now destruct u| |]; rewrite E; cbn [fst snd].
  - now rewrite asciiSpace_IsSpace.
  - now rewrite slice_0_snoc.
Qed.

Lemma RightTrim_ascii_stop (c : byte) (u : gostring) :
  b2z c < 128 -> bytes.asciiSpace c = false -> RightTrim (u ++ [c]) (u ++ [c]).
Proof.
  intros Hc Hsp. apply RT_stop; [now destruct u|].
  rewrite DecodeLastRune_ascii by assumption. cbn [fst].
  now rewrite asciiSpace_IsSpace.
Qed.

Lemma TrimSpace_start_spec (fuel : nat) (s : gostring) (start : Z) :
  0 <= start <= len s -> len s - start < Z.of_nat fuel ->
  match bytes.TrimSpace_start fuel s start with
  | inr t => Trimmed (slice_from s start) t
  | inl k =>
      start <= k <= len s
      /\ (forall m, LeftTrim (slice_from s k) m -> LeftTrim (slice_from s start) m)
      /\ (k < len s ->
          b2z (idx s k) < 128 /\ bytes.asciiSpace (idx s k) = false)
  end.
Proof.
  revert start. induction fuel as [|fuel IH]; intros start Hs Hf; [lia|].
  cbn [bytes.TrimSpace_start].
  destruct (Z.ltb_spec start (len s)) as [Hlt|Hge]; [|repeat split; auto; lia].
  cbv zeta. unfold utf8.RuneSelf.
  destruct (Z.leb_spec 128 (b2z (idx s start))) as [Hhi|Hlo].
  - apply TrimFunc_spec.
  - destruct (bytes.asciiSpace (idx s start)) eqn:Hsp; cbn [negb].
    + specialize (IH (start + 1) ltac:(lia) ltac:(lia)).
      destruct (bytes.TrimSpace_start fuel s (start + 1)) as [k|t].
      * destruct IH as (Hk & Hlift & Hstop). split; [lia|]. split; [|assumption].
        intros m Hm. rewrite (idx_slice_from s start) by lia.
        apply LeftTrim_ascii_space; auto.
      * destruct IH as (m & L & R). exists m. split; [|assumption].
        rewrite (idx_slice_from s start) by lia.
        apply LeftTrim_ascii_space; auto.
    + split; [lia|]. split; auto.
Qed.

Lemma slice_head (s : gostring) (start stop : Z) :
  0 <= start < stop -> stop <= len s ->
  slice s start stop = idx s start :: slice s (start + 1) stop.
Proof.
  intros H1 H2. unfold slice.
  change (skipn (Z.to_nat start) s) with (slice_from s start).
  rewrite (idx_slice_from s start) by lia.
  replace (Z.to_nat (stop - start)) with (S (Z.to_nat (stop - (start + 1)))) by lia.
  reflexivity.
Qed.

Lemma TrimSpace_stop_spec (fuel : nat) (s : gostring) (start stop : Z) :
  0 <= start <= stop -> stop <= len s -> stop - start < Z.of_nat fuel ->
  (start < len s -> b2z (idx s start) < 128 /\ bytes.asciiSpace (idx s start) = false) ->
  RightTrim (slice s start stop)
            match bytes.TrimSpace_stop fuel s start stop with
            | inr t => t
            | inl k => if start =? k then [] else slice s start k
            end.
Proof.
  revert stop. induction fuel as [|fuel IH]; intros stop Hs Hl Hf Hhead; [lia|].
  cbn [bytes.TrimSpace_stop].
  destruct (Z.ltb_spec start stop) as [Hlt|Hge].
  - cbv zeta. unfold utf8.RuneSelf.
    assert (Esn : slice s start stop = slice s start (stop - 1) ++ [idx s (stop - 1)]).
    { replace stop with (stop - 1 + 1) at 1 by lia. apply slice_snoc; lia. }
    destruct (Z.leb_spec 128 (b2z (idx s (stop - 1)))) as [Hhi|Hlo].
    + destruct (TrimFunc_spec (slice s start stop)) as (m & L & R).
      destruct (Hhead ltac:(lia)) as [Ha Hn].
      assert (L' : LeftTrim (slice s start stop) (slice s start stop)).
      { rewrite slice_head by lia. now apply LeftTrim_ascii_stop. }
      rewrite <- (LeftTrim_fun _ _ _ L' L) in R. exact R.
    + destruct (bytes.asciiSpace (idx s (stop - 1))) eqn:Hsp; cbn [negb].
      * rewrite Esn. apply RightTrim_ascii_space; auto. apply IH; auto; lia.
      * destruct (Z.eqb_spec start stop); [lia|].
        rewrite Esn. now apply RightTrim_ascii_stop.
  - assert (start = stop) by lia. subst stop. rewrite Z.eqb_refl.
    unfold slice. rewrite Z.sub_diag. cbn. constructor.
Qed.

(** [bytes.TrimSpace] trims: its result is the text without the white
    space at its front and at its back. *)
Lemma TrimSpace_spec (s : gostring) : Trimmed s (bytes.TrimSpace s).
Proof.
  unfold bytes.TrimSpace.
  pose proof (len_nonneg s) as Hl.
  pose proof (TrimSpace_start_spec (S (length s)) s 0 ltac:(lia) ltac:(unfold len; lia)) as H1.
  destruct (bytes.TrimSpace_start (S (length s)) s 0) as [start|t]; [|exact H1].
  destruct H1 as (Hk & Hlift & Hhead).
  pose proof (TrimSpace_stop_spec (S (length s)) s start (len s)
                ltac:(lia) ltac:(lia) ltac:(unfold len; lia) Hhead) as H2.
  rewrite slice_to_end in H2 by lia.
  exists (slice_from s start). split.
  - apply (Hlift (slice_from s start)).
    destruct (Z.eq_dec start (len s)) as [->|Hne].
    + rewrite slice_from_nil by lia. constructor.
    + rewrite (idx_slice_from s start) by lia.
      destruct (Hhead ltac:(lia)). now apply LeftTrim_ascii_stop.
  - destruct (bytes.TrimSpace_stop (S (length s)) s start (len s)); exact H2.
Qed.

(** ** Consequences for the comparator *)

Lemma TrimSpace_unique (s t : gostring) : Trimmed s t -> bytes.TrimSpace s = t.
Proof. intros H. exact (Trimmed_fun _ _ _ (TrimSpace_spec s) H). Qed.

Lemma TrimSpace_idempotent (s : gostring) :
  bytes.TrimSpace (bytes.TrimSpace s) = bytes.TrimSpace s.
Proof. apply TrimSpace_unique, (Trimmed_fixed s), TrimSpace_spec. Qed.

Lemma slice_from_app (u t : gostring) (n : Z) :
  0 <= n <= len u -> slice_from (u ++ t) n = slice_from u n ++ t.
Proof.
  intros H. unfold slice_from, len in *. rewrite skipn_app.
  replace (Z.to_nat n - length u)%nat with 0%nat by lia. reflexivity.
Qed.

(** A byte of ASCII white space added at the end is trimmed away. *)
Lemma LeftTrim_snoc_space (s m : gostring) (c : byte) :
  b2z c < 128 -> bytes.asciiSpace c = true ->
  LeftTrim s m ->
  LeftTrim (s ++ [c]) (match m with [] => [] | _ => m ++ [c] end).
Proof.
  intros Hc Hsp H.
  assert (Hst : utf8.RuneStart c = true).
  { rewrite RuneStart_range. destruct (Z.leb_spec 128 (b2z c)); [lia|reflexivity]. }
  induction H as [|s Hs Hr|s m Hs Hr H IH].
  - cbn [app]. apply LeftTrim_ascii_space; auto. constructor.
  - assert (E : utf8.DecodeRune (s ++ [c]) = utf8.DecodeRune s)
      by (rewrite !DecodeRune_decode; now apply decode_app_start).
    destruct s as [|x s]; [congruence|].
    apply LT_stop; [discriminate|]. now rewrite E.
  - assert (E : utf8.DecodeRune (s ++ [c]) = utf8.DecodeRune s)
      by (rewrite !DecodeRune_decode; now apply decode_app_start).
    apply LT_step; [now destruct s|now rewrite E|].
    rewrite E. pose proof (decode_size s Hs) as Hw.
    rewrite <- DecodeRune_decode in Hw.
    rewrite slice_from_app by lia. exact IH.
Qed.

Lemma Trimmed_snoc_space (s t : gostring) (c : byte) :
  b2z c < 128 -> bytes.asciiSpace c = true ->
  Trimmed s t -> Trimmed (s ++ [c]) t.
Proof.
  intros Hc Hsp (m & L & R).
  pose proof (LeftTrim_snoc_space s m c Hc Hsp L) as L'.
  destruct m as [|x m].
  - exists []. split; assumption.
  - exists ((x :: m) ++ [c]). split; [assumption|].
    now apply RightTrim_ascii_space.
Qed.

Lemma TrimSpace_snoc_NL (s : gostring) :
  bytes.TrimSpace (s ++ [NL]) = bytes.TrimSpace s.
Proof.
  apply TrimSpace_unique, Trimmed_snoc_space;
    [vm_compute; reflexivity|reflexivity|apply TrimSpace_spec].
Qed.

Lemma TrimSpace_trailing_newlines (t : gostring) (n : nat) :
  bytes.TrimSpace (t ++ repeat NL n) = bytes.TrimSpace t.
Proof.
  induction n as [|n IH]; [now rewrite app_nil_r|].
  cbn [repeat]. rewrite repeat_cons, app_assoc, TrimSpace_snoc_NL. exact IH.
Qed.

(** A text between two ASCII bytes that are not white space is its own
    trimming. *)
Lemma Trimmed_between (c d : byte) (u : gostring) :
  b2z c < 128 -> bytes.asciiSpace c = false ->
  b2z d < 128 -> bytes.asciiSpace d = false ->
  Trimmed (c :: u ++ [d]) (c :: u ++ [d]).
Proof.
  intros Hc Hcs Hd Hds. exists (c :: u ++ [d]). split.
  - now apply LeftTrim_ascii_stop.
  - change (c :: u ++ [d]) with ((c :: u) ++ [d]). now apply RightTrim_ascii_stop.
Qed.

Lemma compare_Match_iff (expected actual : gostring) :
  compare expected actual = Match
  <-> bytes.TrimSpace expected = bytes.TrimSpace actual.
Proof.
  unfold compare, bytes.Equal.
  destruct (string_eqb (bytes.TrimSpace actual) (bytes.TrimSpace expected)) eqn:E;
    cbn [negb].
  - apply string_eqb_eq in E. split; auto.
  - apply string_eqb_neq in E. split; [discriminate|congruence].
Qed.

Lemma compare_Diff_iff (expected actual : gostring) :
  compare expected actual = Diff
  <-> bytes.TrimSpace expected <> bytes.TrimSpace actual.
Proof.
  rewrite <- compare_Match_iff. destruct (compare expected actual); split; congruence.
Qed.

(** ** Trimming as a decomposition *)

Lemma Spaces_one (u : gostring) :
  u <> [] -> unicode.IsSpace (fst (utf8.DecodeRune u)) = true ->
  snd (utf8.DecodeRune u) = len u -> Spaces u.
Proof.
  intros H1 H2 H3. rewrite <- (app_nil_r u). apply Spaces_cons; auto.
  constructor.
Qed.

Lemma Spaces_app (l1 l2 : gostring) : Spaces l1 -> Spaces l2 -> Spaces (l1 ++ l2).
Proof.
  induction 1 as [|u v Hu Hsp Hsz Hv IH]; intros H2; [exact H2|].
  rewrite <- app_assoc. apply Spaces_cons; auto.
Qed.

Lemma Spaces_head (l : gostring) :
  Spaces l -> match l with [] => True | d :: _ => utf8.RuneStart d = true end.
Proof.
  induction 1 as [|u v Hu Hsp Hsz Hv IH]; [exact I|].
  destruct u as [|c u]; [congruence|]. cbn [app].
  rewrite DecodeRune_decode in Hsp.
  exact (decode_space_start (c :: u) Hsp).
Qed.

(** The first rune of a text, cut out of it, decodes as it did. *)
Lemma decode_firstn (s : gostring) (r n : Z) :
  decode s = (r, n) -> decode (firstn (Z.to_nat n) s) = (r, n).
Proof.
  destruct s as [|c0 s]; [cbn; intros [= <- <-]; reflexivity|].
  pose proof (b2z_range c0) as Hc.
  unfold decode at 1; cbv zeta.
  destruct (first_cases _ Hc) as
    [[Hr Hf]|[[Hr Hf]|[[Hr Hf]|[[Hr Hf]|[[Hr Hf]|[[Hr Hf]|[[Hr Hf]|[[Hr Hf]|[Hr Hf]]]]]]]]];
    rewrite Hf;
    [ row_consts utf8.as_ | row_consts utf8.xx | row_consts utf8.s1
    | row_consts utf8.s2 | row_consts utf8.s3 | row_consts utf8.s4
    | row_consts utf8.s5 | row_consts utf8.s6 | row_consts utf8.s7 ];
    try (destruct (Z.ltb_spec (b2z c0) 128); try lia; intros [= <- <-];
         change (Z.to_nat 1) with 1%nat; cbn [firstn];
         first [ now apply decode_ascii | apply decode_broken; [lia|exact I] ]);
    destruct s as [|c1 [|c2 [|c3 s]]];
    repeat match goal with
           | |- context [if ?a || ?b then _ else _] => destruct (a || b) eqn:?
           end;
    intros [= <- <-];
    change (Z.to_nat 1) with 1%nat; change (Z.to_nat 2) with 2%nat;
    change (Z.to_nat 3) with 3%nat; change (Z.to_nat 4) with 4%nat;
    cbn [firstn];
    try (apply decode_broken; [lia|exact I]);
    unfold decode; cbv zeta; rewrite Hf;
    match goal with
    | H : utf8.first _ = ?x |- _ => row_consts x
    end;
    repeat match goal with
           | H : ?c = _ |- context [?c] => rewrite H
           end;
    reflexivity.
Qed.

Lemma LeftTrim_split (s m : gostring) :
  LeftTrim s m -> exists l, s = l ++ m /\ Spaces l.
Proof.
  induction 1 as [|s Hs Hsp|s m Hs Hsp H (l & E & Hl)].
  - exists []. split; [reflexivity|constructor].
  - exists []. split; [reflexivity|constructor].
  - destruct (utf8.DecodeRune s) as [r n] eqn:D. cbn [fst snd] in *.
    pose proof (decode_size s Hs) as Hn.
    rewrite <- DecodeRune_decode, D in Hn. cbn [snd] in Hn.
    pose proof D as D'. rewrite DecodeRune_decode in D'.
    apply decode_firstn in D'. rewrite <- DecodeRune_decode in D'.
    exists (firstn (Z.to_nat n) s ++ l). split.
    + rewrite <- app_assoc, <- E. symmetry. apply firstn_skipn.
    + apply Spaces_cons; auto.
      * intros C. apply (f_equal (@length byte)) in C.
        rewrite length_firstn in C. unfold len in Hn. cbn in C. lia.
      * now rewrite D'.
      * rewrite D'. cbn [snd]. unfold len in *. rewrite length_firstn. lia.
Qed.

Lemma slice_0_slice_from (p : gostring) (k : Z) :
  p = slice p 0 k ++ slice_from p k.
Proof. rewrite slice_0. symmetry. apply firstn_skipn. Qed.

Lemma RightTrim_split (p t : gostring) :
  RightTrim p t -> exists r, p = t ++ r /\ Spaces r.
Proof.
  induction 1 as [|p Hp Hsp|p t Hp Hsp H (r' & E & Hr')].
  - exists []. split; [reflexivity|constructor].
  - exists []. split; [now rewrite app_nil_r|constructor].
  - destruct (utf8.DecodeLastRune p) as [r n] eqn:D. cbn [fst snd] in *.
    destruct (DecodeLastRune_spec _ _ _ Hp D) as [Hn [(-> & _)|Hd]];
      [discriminate|].
    exists (r' ++ slice_from p (len p - n)). split.
    + rewrite app_assoc, <- E. apply slice_0_slice_from.
    + apply Spaces_app; [assumption|].
      rewrite <- DecodeRune_decode in Hd.
      apply Spaces_one.
      * intros C. apply (f_equal len) in C.
        rewrite len_slice_from in C by lia. change (len (@nil byte)) with 0 in C. lia.
      * now rewrite Hd.
      * rewrite Hd. cbn [snd]. rewrite len_slice_from; lia.
Qed.

Lemma Trimmed_ends (s t : gostring) : Trimmed s t -> no_space_at_ends t.
Proof.
  intros H. destruct (Trimmed_fixed_both _ _ H) as [L R].
  destruct t as [|c t]; [now left|right]. split.
  - destruct (LeftTrim_head _ _ L) as [E|E]; [discriminate|exact E].
  - destruct (RightTrim_tail _ _ R) as [E|E]; [discriminate|exact E].
Qed.

(** The text, the white space before it and the white space after it. *)
Lemma Trimmed_split (s t : gostring) :
  Trimmed s t ->
  exists l r, s = l ++ t ++ r /\ Spaces l /\ Spaces r /\ no_space_at_ends t.
Proof.
  intros H. pose proof (Trimmed_ends _ _ H) as He.
  destruct H as (m & L & R).
  destruct (LeftTrim_split _ _ L) as (l & -> & Hl).
  destruct (RightTrim_split _ _ R) as (r & -> & Hr).
  now exists l, r.
Qed.

(** The complete encoding of a white-space rune is read the same whatever
    follows it. *)
Lemma decode_complete (u y : gostring) :
  u <> [] -> unicode.IsSpace (fst (decode u)) = true ->
  snd (decode u) = len u ->
  decode (u ++ y) = decode u.
Proof.
  intros Hu Hsp Hsz.
  destruct (decode u) as [r n] eqn:D. cbn [fst snd] in *.
  destruct (Z_le_gt_dec 2 n) as [H2|H1]; [now apply decode_app|].
  destruct u as [|c [|c' u]]; [congruence| |rewrite !len_cons in Hsz; pose proof (len_nonneg u); lia].
  cbn [app].
  destruct (Z_lt_ge_dec (b2z c) 128) as [Ha|Hb].
  - rewrite decode_ascii in D by assumption. now rewrite decode_ascii.
  - rewrite decode_broken in D by (auto; lia). injection D as <- <-. discriminate.
Qed.

Lemma LeftTrim_Spaces (l x m : gostring) :
  Spaces l -> LeftTrim x m -> LeftTrim (l ++ x) m.
Proof.
  induction 1 as [|u v Hu Hsp Hsz Hv IH]; intros Hx; [exact Hx|].
  rewrite <- app_assoc.
  assert (E : utf8.DecodeRune (u ++ v ++ x) = utf8.DecodeRune u).
  { rewrite !DecodeRune_decode in *. now apply decode_complete. }
  apply LT_step; [now destruct u|now rewrite E|].
  rewrite E, Hsz. unfold slice_from, len. rewrite Nat2Z.id.
  rewrite skipn_app, skipn_all, Nat.sub_diag. cbn. now apply IH.
Qed.

(** The bytes of a complete encoding of two bytes or more: at most four,
    the first one starts a rune and the others continue it. *)
Lemma decode_shape (u : gostring) :
  snd (decode u) = len u -> 2 <= len u ->
  len u <= 4
  /\ match u with
     | [] => False
     | c0 :: rest =>
         utf8.RuneStart c0 = true
         /\ Forall (fun c => utf8.RuneStart c = false) rest
     end.
Proof.
  destruct u as [|c0 u]; [cbn; lia|].
  unfold decode; cbv zeta. unfold utf8.locb, utf8.hicb.
  assert (Hcont : forall c lo hi, 128 <= lo -> hi <= 191 ->
                    (b2z c <? lo) || (hi <? b2z c) = false ->
                    utf8.RuneStart c = false).
  { intros c lo hi Hlo Hhi H. rewrite RuneStart_range.
    destruct (Z.ltb_spec (b2z c) lo), (Z.ltb_spec hi (b2z c)); try discriminate.
    destruct (Z.leb_spec 128 (b2z c)), (Z.leb_spec (b2z c) 191);
      cbn [andb negb]; try lia; reflexivity. }
  assert (Hstart : 192 <= b2z c0 -> utf8.RuneStart c0 = true).
  { intros H. rewrite RuneStart_range.
    destruct (Z.leb_spec 128 (b2z c0)), (Z.leb_spec (b2z c0) 191);
      cbn [andb negb]; try lia; reflexivity. }
  by_row c0;
    try (destruct (b2z c0 <? 128); cbn [snd]; rewrite len_cons;
         pose proof (len_nonneg u); lia);
    destruct u as [|c1 [|c2 [|c3 [|c4 u]]]];
    rewrite ?len_cons; change (len (@nil byte)) with 0; try (pose proof (len_nonneg u));
    repeat match goal with
           | |- context [if ?a || ?b then _ else _] => destruct (a || b) eqn:?
           end;
    cbn [snd]; intros; try lia;
    (split; [lia|]); (split; [apply Hstart; lia|]);
    repeat constructor;
    match goal with
    | H : (b2z ?c <? _) || _ = false |- utf8.RuneStart ?c = false =>
        refine (Hcont _ _ _ _ _ H); lia
    end.
Qed.

Lemma idx_app_r (x u : gostring) (k : Z) :
  0 <= k -> idx (x ++ u) (len x + k) = idx u k.
Proof.
  intros H. unfold idx, len. rewrite app_nth2 by lia. f_equal. lia.
Qed.

Lemma slice_app_r (x u : gostring) :
  slice (x ++ u) (len x) (len x + len u) = u.
Proof.
  unfold slice, len. rewrite Nat2Z.id, skipn_app, skipn_all, Nat.sub_diag.
  cbn [skipn app].
  replace (Z.to_nat (Z.of_nat (length x) + Z.of_nat (length u) - Z.of_nat (length x)))
    with (length u) by lia.
  apply firstn_all.
Qed.

(** The backward search stops at the first byte of a complete encoding
    that ends the text. *)
Lemma backtrack_finds (p : gostring) (lim e n : Z) :
  2 <= n <= 4 -> lim <= e - n ->
  utf8.RuneStart (idx p (e - n)) = true ->
  (forall k, 1 <= k < n -> utf8.RuneStart (idx p (e - k)) = false) ->
  utf8.backtrack 4 p lim (e - 1 - 1) = e - n.
Proof.
  intros Hn Hlim Hst Hcont.
  replace (e - 1 - 1) with (e - 2) by lia.
  cbn [utf8.backtrack].
  destruct (Z.leb_spec lim (e - 2)); [|lia].
  destruct (Z.eq_dec n 2) as [->|N2]; [now rewrite Hst|].
  rewrite (Hcont 2) by lia.
  replace (e - 2 - 1) with (e - 3) by lia.
  destruct (Z.leb_spec lim (e - 3)); [|lia].
  destruct (Z.eq_dec n 3) as [->|N3]; [now rewrite Hst|].
  rewrite (Hcont 3) by lia.
  replace (e - 3 - 1) with (e - 4) by lia.
  destruct (Z.leb_spec lim (e - 4)); [|lia].
  assert (n = 4) by lia. subst n. now rewrite Hst.
Qed.

Lemma Forall_idx (P : byte -> Prop) (l : gostring) (k : Z) :
  Forall P l -> 0 <= k < len l -> P (idx l k).
Proof.
  intros H Hk. rewrite Forall_forall in H. apply H.
  unfold idx, len in *. apply nth_In. lia.
Qed.

Lemma DecodeLastRune_complete (x u : gostring) :
  u <> [] -> unicode.IsSpace (fst (decode u)) = true ->
  snd (decode u) = len u ->
  utf8.DecodeLastRune (x ++ u) = decode u.
Proof.
  intros Hu Hsp Hsz.
  destruct (Z_le_gt_dec 2 (len u)) as [H2|H1].
  - destruct (decode_shape u Hsz H2) as [H4 Hshape].
    destruct u as [|c0 rest]; [contradiction|]. destruct Hshape as [Hst Hcont].
    rewrite len_cons in *. pose proof (len_nonneg rest). pose proof (len_nonneg x).
    unfold utf8.DecodeLastRune; cbv zeta.
    rewrite len_app, len_cons.
    set (e := len x + (1 + len rest)).
    assert (Hidx : forall k, 1 <= k <= 1 + len rest ->
                     idx (x ++ c0 :: rest) (e - k)
                     = idx (c0 :: rest) (1 + len rest - k)).
    { intros k Hk. replace (e - k) with (len x + (1 + len rest - k)) by (unfold e; lia).
      apply idx_app_r. lia. }
    assert (Hc : forall k, 1 <= k < 1 + len rest ->
                   utf8.RuneStart (idx (x ++ c0 :: rest) (e - k)) = false).
    { intros k Hk. rewrite Hidx by lia.
      replace (1 + len rest - k) with (1 + (len rest - k)) by lia.
      unfold idx. replace (Z.to_nat (1 + (len rest - k))) with (S (Z.to_nat (len rest - k))) by lia.
      cbn [nth]. apply (Forall_idx _ rest (len rest - k) Hcont). lia. }
    assert (Hs : utf8.RuneStart (idx (x ++ c0 :: rest) (e - (1 + len rest))) = true).
    { rewrite Hidx by lia. now rewrite Z.sub_diag. }
    destruct (Z.eqb_spec e 0); [unfold e in *; lia|].
    unfold utf8.RuneSelf.
    destruct (Z.ltb_spec (b2z (idx (x ++ c0 :: rest) (e - 1))) 128) as [Ha|Hb].
    { pose proof (Hc 1 ltac:(lia)) as C. rewrite RuneStart_range in C.
      destruct (Z.leb_spec 128 (b2z (idx (x ++ c0 :: rest) (e - 1)))); [lia|discriminate]. }
    unfold utf8.UTFMax.
    rewrite (backtrack_finds _ _ e (1 + len rest));
      [|lia|destruct (Z.ltb_spec (e - 4) 0); unfold e; lia|assumption|assumption].
    replace (e - (1 + len rest)) with (len x) by (unfold e; lia).
    destruct (Z.ltb_spec (len x) 0); [lia|].
    replace e with (len x + len (c0 :: rest)) by (rewrite len_cons; reflexivity).
    rewrite slice_app_r, DecodeRune_decode.
    destruct (decode (c0 :: rest)) as [r0 n0]. cbn [snd] in Hsz. subst n0.
    rewrite len_cons. now rewrite Z.eqb_refl.
  - destruct u as [|c [|c' u]];
      [congruence| |rewrite !len_cons in H1; pose proof (len_nonneg u); lia].
    destruct (Z_lt_ge_dec (b2z c) 128) as [Ha|Hb].
    + rewrite decode_ascii by assumption. now apply DecodeLastRune_ascii.
    + rewrite decode_broken in Hsp by (auto; lia). discriminate.
Qed.

Lemma RightTrim_Spaces (r x t : gostring) :
  Spaces r -> RightTrim x t -> RightTrim (x ++ r) t.
Proof.
  intros Hr. revert x. induction Hr as [|u v Hu Hsp Hsz Hv IH]; intros x Hx.
  - now rewrite app_nil_r.
  - rewrite app_assoc. apply IH.
    rewrite DecodeRune_decode in Hsp, Hsz.
    pose proof (DecodeLastRune_complete x u Hu Hsp Hsz) as E.
    apply RT_step; [now destruct x, u| |]; rewrite E; [assumption|].
    rewrite Hsz, len_app. replace (len x + len u - len u) with (len x) by lia.
    rewrite slice_0. unfold len. rewrite Nat2Z.id, firstn_app, firstn_all, Nat.sub_diag.
    cbn. now rewrite app_nil_r.
Qed.

(** A text between white space is what trimming leaves, when it has no
    white space at its own ends. *)
Lemma Trimmed_of_split (l t r : gostring) :
  Spaces l -> Spaces r -> no_space_at_ends t -> Trimmed (l ++ t ++ r) t.
Proof.
  intros Hl Hr Ht. destruct t as [|c t].
  - exists []. split; [|constructor].
    replace (l ++ [] ++ r) with ((l ++ r) ++ []) by (rewrite app_nil_r; reflexivity).
    apply LeftTrim_Spaces; [now apply Spaces_app|constructor].
  - destruct Ht as [E|[Hf Hb]]; [discriminate|].
    exists ((c :: t) ++ r). split.
    + apply LeftTrim_Spaces; [assumption|].
      apply LT_stop; [discriminate|].
      pose proof (Spaces_head r Hr) as Hh.
      destruct r as [|d r]; [now rewrite app_nil_r|].
      rewrite DecodeRune_decode in *.
      rewrite decode_app_start; [assumption|discriminate|assumption].
    + apply RightTrim_Spaces; [assumption|].
      apply RT_stop; [discriminate|assumption].
Qed.

(** Trimming, as a decomposition: [t] is what trimming leaves of [s]
    exactly when [s] is [t] between two runs of white space and [t] has
    none at its ends. *)
Lemma Trimmed_iff_split (s t : gostring) :
  Trimmed s t
  <-> exists l r, s = l ++ t ++ r /\ Spaces l /\ Spaces r /\ no_space_at_ends t.
Proof.
  split; [apply Trimmed_split|].
  intros (l & r & -> & Hl & Hr & Ht). now apply Trimmed_of_split.
Qed.

(** ** The writer *)


Lemma stdout_bind {A B} (m : M A) (k : A -> M B) (a : A) :
  result m = Ret a -> stdout (bind m k) = stdout m ++ stdout (k a).
Proof.
  destruct m as [o r]. cbn. intros ->. now destruct (k a).
Qed.

Lemma result_bind {A B} (m : M A) (k : A -> M B) (a : A) :
  result m = Ret a -> result (bind m k) = result (k a).
Proof.
  destruct m as [o r]. cbn. intros ->. now destruct (k a).
Qed.

(** ** Truncation *)

Lemma wrap_int_id (z : Z) : is_int z -> wrap_int z = z.
Proof.
  unfold is_int, MinInt, MaxInt, wrap_int. intros H.
  rewrite Z.mod_small; lia.
Qed.

Lemma truncate_fits (s : gostring) (max : Z) :
  len s <= max -> Table.truncate s max = Ret s.
Proof.
  intros H. unfold Table.truncate.
  destruct (Z.ltb_spec max (len s)); [lia|reflexivity].
Qed.

Lemma truncate_long (s : gostring) (w : Z) :
  is_int w -> 3 <= w -> w < len s ->
  Table.truncate s w = Ret (firstn (Z.to_nat (w - 3)) s ++ lit "...").
Proof.
  intros Hi H3 Hl. unfold Table.truncate.
  destruct (Z.ltb_spec w (len s)); [|lia].
  rewrite wrap_int_id by (unfold is_int, MinInt, MaxInt in *; lia).
  destruct (Z.ltb_spec (w - 3) 0); [lia|].
  destruct (Z.ltb_spec (len s) (w - 3)); [lia|].
  cbn [orb]. now rewrite slice_0.
Qed.

Lemma truncate_narrow (s : gostring) (max : Z) :
  is_int max -> max < 3 -> max < len s -> len s <= maxAlloc ->
  Table.truncate s max = Panic.
Proof.
  unfold is_int, MinInt, MaxInt, maxAlloc. intros Hi H3 Hl Ha.
  unfold Table.truncate.
  destruct (Z.ltb_spec max (len s)); [|lia].
  destruct (Z_lt_ge_dec (max - 3) (- 2 ^ 63)) as [Hw|Hw].
  - (* the subtraction wraps around to a bound past any string *)
    assert (E : wrap_int (max - 3) = max - 3 + 2 ^ 64).
    { unfold wrap_int.
      replace (max - 3 + 2 ^ 63) with (max - 3 + 2 ^ 64 + 2 ^ 63 + (-1) * 2 ^ 64) by lia.
      rewrite Z.mod_add by lia. rewrite Z.mod_small; lia. }
    rewrite E.
    destruct (Z.ltb_spec (max - 3 + 2 ^ 64) 0); [reflexivity|].
    destruct (Z.ltb_spec (len s) (max - 3 + 2 ^ 64)); [reflexivity|lia].
  - rewrite wrap_int_id by (unfold is_int, MinInt, MaxInt; lia).
    destruct (Z.ltb_spec (max - 3) 0); [reflexivity|lia].
Qed.

(** At the width of the table no line makes [truncate] panic. *)
Lemma truncate_38 (s : gostring) : exists r, Table.truncate s 38 = Ret r.
Proof.
  destruct (Z_le_gt_dec (len s) 38).
  - eexists. now apply truncate_fits.
  - eexists. apply truncate_long; unfold is_int, MinInt, MaxInt; lia.
Qed.

Lemma printColoredRow_38 (e a : gostring) :
  result (Table.printColoredRow e a 38) = Ret tt.
Proof.
  unfold Table.printColoredRow, lift.
  destruct (truncate_38 e) as [re ->], (truncate_38 a) as [ra ->].
  reflexivity.
Qed.

Lemma printPlainRow_40 (e a : gostring) :
  result (Table.printPlainRow e a 40) = Ret tt.
Proof.
  unfold Table.printPlainRow, lift. change (40 - 2) with 38.
  destruct (truncate_38 e) as [re ->], (truncate_38 a) as [ra ->].
  reflexivity.
Qed.

Lemma tableRow_result (row : gostring * gostring) : result (tableRow row) = Ret tt.
Proof.
  destruct row as [e a]. unfold tableRow.
  destruct (differing e a); [apply printColoredRow_38|apply printPlainRow_40].
Qed.

(** ** The diff loops *)

Lemma lineAt_nth (lines : list gostring) (i : nat) :
  lineAt lines (Z.of_nat i) = nth i lines [].
Proof.
  unfold lineAt, len. rewrite Nat2Z.id.
  destruct (Z.ltb_spec (Z.of_nat i) (Z.of_nat (length lines))); [reflexivity|].
  symmetry. apply nth_overflow. lia.
Qed.

Lemma Table_loop_rows (fuel : nat) (expLines actLines : list gostring) (k n : nat) :
  (n - k <= fuel)%nat ->
  Table.diffLines_loop fuel expLines actLines 40 (Z.of_nat k) (Z.of_nat n)
  = (concat (map (fun i => stdout (tableRow (rowAt expLines actLines i)))
                 (seq k (n - k))),
     Ret tt).
Proof.
  revert k. induction fuel as [|fuel IH]; intros k Hf.
  - replace (n - k)%nat with 0%nat by lia. reflexivity.
  - cbn [Table.diffLines_loop].
    destruct (Z.ltb_spec (Z.of_nat k) (Z.of_nat n)) as [Hlt|Hge].
    + cbv zeta. rewrite !lineAt_nth.
      replace (Z.of_nat k + 1) with (Z.of_nat (S k)) by lia.
      rewrite IH by lia.
      replace (n - k)%nat with (S (n - S k)) by lia.
      cbn [seq map concat].
      pose proof (tableRow_result (rowAt expLines actLines k)) as Hr.
      unfold tableRow, rowAt in *. change (40 - 2) with 38.
      destruct (if differing _ _ then _ else _) as [o r]. cbn in Hr. subst r.
      reflexivity.
    + replace (n - k)%nat with 0%nat by lia. reflexivity.
Qed.

Lemma Unified_loop_rows (fuel : nat) (expLines actLines : list gostring) (k : nat) :
  let n := Nat.max (length expLines) (length actLines) in
  (n - k <= fuel)%nat ->
  Unified.diffLines_loop fuel expLines actLines (Z.of_nat k)
  = (concat (map (fun i => unifiedRow (rowAt expLines actLines i))
                 (seq k (n - k))),
     Ret tt).
Proof.
  intros n. revert k. induction fuel as [|fuel IH]; intros k Hf.
  - replace (n - k)%nat with 0%nat by lia. reflexivity.
  - cbn [Unified.diffLines_loop]. unfold len.
    destruct (Z.ltb_spec (Z.of_nat k) (Z.of_nat (length expLines)));
      destruct (Z.ltb_spec (Z.of_nat k) (Z.of_nat (length actLines)));
      cbn [orb];
      try (replace (n - k)%nat with 0%nat by lia; reflexivity);
      cbv zeta; rewrite !lineAt_nth;
      replace (Z.of_nat k + 1) with (Z.of_nat (S k)) by lia;
      rewrite IH by lia;
      replace (n - k)%nat with (S (n - S k)) by lia;
      cbn [seq map concat]; unfold unifiedRow, rowAt;
      destruct (differing _ _); reflexivity.
Qed.

Lemma Split_from_length (cur s : gostring) (sep : byte) :
  (1 <= length (strings.Split_from cur s sep))%nat.
Proof.
  revert cur. induction s as [|c s IH]; intros cur; cbn; [lia|].
  destruct (Ascii.eqb c sep); cbn; [lia|apply IH].
Qed.

Lemma Split_length (s : gostring) (sep : byte) :
  (1 <= length (strings.Split s sep))%nat.
Proof. apply Split_from_length. Qed.

Lemma Table_diffLines_rows (expected actual : gostring) :
  Table.diffLines expected actual
  = (tableHeader
       ++ concat (map (fun row => stdout (tableRow row))
                      (diffRows (strings.Split expected NL)
                                (strings.Split actual NL)))
       ++ [tableFooter],
     Ret tt).
Proof.
  unfold Table.diffLines. cbv zeta.
  set (expLines := strings.Split expected NL).
  set (actLines := strings.Split actual NL).
  set (n := Nat.max (length expLines) (length actLines)).
  assert (E : (if len expLines <? len actLines then len actLines else len expLines)
              = Z.of_nat n).
  { unfold len, n. destruct (Z.ltb_spec (Z.of_nat (length expLines))
                                        (Z.of_nat (length actLines))); lia. }
  rewrite E, Nat2Z.id.
  pose proof (Table_loop_rows n expLines actLines 0 n ltac:(lia)) as L.
  change (Z.of_nat 0) with 0 in L. rewrite L, Nat.sub_0_r.
  unfold diffRows. fold n. rewrite map_map.
  unfold fmt.Printf, bind. cbn [app].
  reflexivity.
Qed.

Lemma Unified_diffLines_rows (expected actual : gostring) :
  Unified.diffLines expected actual
  = (unifiedHeader
       ++ concat (map unifiedRow
                      (diffRows (strings.Split expected NL)
                                (strings.Split actual NL))),
     Ret tt).
Proof.
  unfold Unified.diffLines. cbv zeta.
  set (expLines := strings.Split expected NL).
  set (actLines := strings.Split actual NL).
  pose proof (Unified_loop_rows (length expLines + length actLines)
                                expLines actLines 0) as L.
  cbv zeta in L. change (Z.of_nat 0) with 0 in L.
  rewrite L by lia. rewrite Nat.sub_0_r.
  unfold diffRows. rewrite map_map.
  reflexivity.
Qed.

(** ** The rows and the differing indices *)

Lemma differing_true (e a : gostring) : differing e a = true <-> e <> a.
Proof.
  unfold differing. rewrite negb_true_iff. apply string_eqb_neq.
Qed.

Lemma diffRows_length (expLines actLines : list gostring) :
  length (diffRows expLines actLines)
  = Nat.max (length expLines) (length actLines).
Proof. unfold diffRows. now rewrite length_map, length_seq. Qed.

Lemma diffRows_nth (expLines actLines : list gostring) (i : nat) :
  (i < length (diffRows expLines actLines))%nat ->
  nth i (diffRows expLines actLines) ([], [])
  = (nth i expLines [], nth i actLines []).
Proof.
  rewrite diffRows_length. intros H. unfold diffRows.
  rewrite (nth_indep _ ([], []) (rowAt expLines actLines 0))
    by (rewrite length_map, length_seq; lia).
  rewrite map_nth, seq_nth by lia. reflexivity.
Qed.

Lemma differingIndices_In (expLines actLines : list gostring) (i : nat) :
  In i (differingIndices expLines actLines)
  <-> (i < Nat.max (length expLines) (length actLines))%nat
      /\ nth i expLines [] <> nth i actLines [].
Proof.
  unfold differingIndices. rewrite filter_In, in_seq, differing_true.
  intuition lia.
Qed.

(** The rows that the unified style writes are the differing ones, two
    writes each. *)
Lemma unified_rows_length (expLines actLines : list gostring) :
  length (concat (map unifiedRow (diffRows expLines actLines)))
  = (2 * length (differingIndices expLines actLines))%nat.
Proof.
  unfold diffRows, differingIndices.
  induction (seq 0 (Nat.max (length expLines) (length actLines))) as [|i l IH];
    [reflexivity|].
  cbn [map concat filter]. rewrite length_app, IH.
  unfold rowAt at 1. unfold unifiedRow at 1.
  destruct (differing (nth i expLines []) (nth i actLines [])); cbn [length]; lia.
Qed.

(** ** The run function *)

Lemma writes_here (block post : list gostring) : writes (block ++ post) block.
Proof. exists [], post. reflexivity. Qed.

Lemma writes_cons (x : gostring) (out block : list gostring) :
  writes out block -> writes (x :: out) block.
Proof. intros (pre & post & ->). exists (x :: pre), post. reflexivity. Qed.


Lemma writes_end (block : list gostring) : writes block block.
Proof. exists [], []. now rewrite app_nil_r. Qed.

Ltac eval_langs :=
  repeat match goal with
         | |- context [string_eqb (lit ?a) (lit ?b)] =>
             let v := eval vm_compute in (string_eqb (lit a) (lit b)) in
             change (string_eqb (lit a) (lit b)) with v
         end.

Lemma writes_here_cons (x : gostring) (block post : list gostring) :
  writes (x :: block ++ post) (x :: block).
Proof. exact (writes_here (x :: block) post). Qed.

Lemma writes_single (x : gostring) (post : list gostring) :
  writes (x :: post) [x].
Proof. exact (writes_here [x] post). Qed.

Lemma Unified_diffLines_result (expected actual : gostring) :
  result (Unified.diffLines expected actual) = Ret tt.
Proof. now rewrite Unified_diffLines_rows. Qed.

Lemma Table_diffLines_result (expected actual : gostring) :
  result (Table.diffLines expected actual) = Ret tt.
Proof. now rewrite Table_diffLines_rows. Qed.

Ltac run_steps Hcomp Hopen Hcreate Hrun Hact Hexp :=
  repeat (cbv beta iota delta [bind ret check lift fmt.Println fmt.Printf];
          rewrite ?Hcomp, ?Hopen, ?Hcreate, ?Hrun, ?Hact, ?Hexp).

Ltac find_report HD :=
  match type of HD with
  | result ?d = _ =>
      let o := fresh "o" in let r := fresh "r" in
      destruct d as [o r]; cbn in HD; subst r
  end;
  cbv [stdout result fst snd]; cbn [app]; rewrite ?app_nil_r;
  split; [reflexivity|];
  repeat first [ apply writes_end | apply writes_here_cons
               | apply writes_single | apply writes_cons ].

Lemma Unified_compileAndRun_reports
      (w : World) (lang src inp out exp expected actual : gostring) :
  steps_succeed w -> supported lang ->
  os_ReadFile w out = inl actual -> os_ReadFile w exp = inl expected ->
  result (Unified.compileAndRun w lang src inp out exp) = Ret None
  /\ writes (stdout (Unified.compileAndRun w lang src inp out exp))
            (report Unified.diffLines expected actual).
Proof.
  intros (Hmk & Hcomp & Hopen & Hcreate & Hrun) Hlang Hact Hexp.
  unfold Unified.compileAndRun, report. cbv zeta.
  pose proof (Unified_diffLines_result expected actual) as HD.
  destruct Hlang as [<-|[<-|[<-|[<-|[<-|[]]]]]]; eval_langs;
    cbv iota; cbn [negb orb];
    run_steps Hcomp Hopen Hcreate Hrun Hact Hexp;
    destruct (compare expected actual);
    find_report HD.
Qed.

Lemma Table_compileAndRun_reports
      (w : World) (lang src inp out exp expected actual : gostring)
      (cleanup : bool) :
  steps_succeed w -> supported lang ->
  os_ReadFile w out = inl actual -> os_ReadFile w exp = inl expected ->
  result (Table.compileAndRun w lang src inp out exp cleanup) = Ret None
  /\ writes (stdout (Table.compileAndRun w lang src inp out exp cleanup))
            (report Table.diffLines expected actual).
Proof.
  intros (Hmk & Hcomp & Hopen & Hcreate & Hrun) Hlang Hact Hexp.
  unfold Table.compileAndRun, report. cbv zeta.
  pose proof (Table_diffLines_result expected actual) as HD.
  rewrite Hmk. unfold Table.logVerbose.
  destruct (verboseFlag w), cleanup, (os_RemoveAll w (lit "build"));
  destruct Hlang as [<-|[<-|[<-|[<-|[<-|[]]]]]]; eval_langs;
    cbv iota; cbn [negb orb];
    run_steps Hcomp Hopen Hcreate Hrun Hact Hexp;
    destruct (compare expected actual);
    find_report HD.
Qed.

(** * The claims *)

(** C1. The comparator reports [Match] exactly when the two blobs, each
    trimmed as a whole of the white space at its front and at its back,
    are the same sequence of bytes: when both are one text [t], with no
    white space at its ends, between runs of white space.
    [bytes.TrimSpace] computes that text. What lies between the first and
    the last byte that is not white space is compared as it is: two texts
    that differ there are a [Diff], be it by a blank, by a blank line, or
    by a blank at the end of a line that is not the last (the trimming is
    of the blob, not of its lines). *)
Theorem C1_match_iff_trimmed_blobs_equal :
  (forall expected actual : gostring,
      (compare expected actual = Match
       <-> exists t l1 r1 l2 r2,
             expected = l1 ++ t ++ r1 /\ actual = l2 ++ t ++ r2
             /\ Spaces l1 /\ Spaces r1 /\ Spaces l2 /\ Spaces r2
             /\ no_space_at_ends t)
      /\ (compare expected actual = Match
          <-> exists t, Trimmed expected t /\ Trimmed actual t)
      /\ (compare expected actual = Match
          <-> bytes.TrimSpace expected = bytes.TrimSpace actual))
  /\ (forall (c d : byte) (u v : gostring),
         b2z c < 128 -> bytes.asciiSpace c = false ->
         b2z d < 128 -> bytes.asciiSpace d = false ->
         u <> v ->
         compare (c :: u ++ [d]) (c :: v ++ [d]) = Diff)
  /\ compare (lit "a b") (lit "a  b") = Diff
  /\ compare (lit "a" ++ [NL; NL] ++ lit "b") (lit "a" ++ [NL] ++ lit "b") = Diff
  /\ compare (lit "a " ++ [NL] ++ lit "b") (lit "a" ++ [NL] ++ lit "b") = Diff.
Proof.
  split; [|split; [|repeat split; vm_compute; reflexivity]].
  - intros expected actual.
    assert (HT : compare expected actual = Match
                 <-> exists t, Trimmed expected t /\ Trimmed actual t).
    { rewrite compare_Match_iff. split.
      - intros E. exists (bytes.TrimSpace expected). split.
        + apply TrimSpace_spec.
        + rewrite E. apply TrimSpace_spec.
      - intros (t & He & Ha).
        now rewrite (TrimSpace_unique _ _ He), (TrimSpace_unique _ _ Ha). }
    split; [|split; [exact HT|apply compare_Match_iff]].
    rewrite HT. split.
    + intros (t & He & Ha). exists t.
      destruct (Trimmed_split _ _ He) as (l1 & r1 & E1 & Hl1 & Hr1 & Ht).
      destruct (Trimmed_split _ _ Ha) as (l2 & r2 & E2 & Hl2 & Hr2 & _).
      exists l1, r1, l2, r2. repeat split; assumption.
    + intros (t & l1 & r1 & l2 & r2 & -> & -> & Hl1 & Hr1 & Hl2 & Hr2 & Ht).
      exists t. split; now apply Trimmed_of_split.
  - intros c d u v Hc Hcs Hd Hds Huv. apply compare_Diff_iff.
    rewrite (TrimSpace_unique _ _ (Trimmed_between c d u Hc Hcs Hd Hds)).
    rewrite (TrimSpace_unique _ _ (Trimmed_between c d v Hc Hcs Hd Hds)).
    intros [= E]. apply app_inv_tail in E. contradiction.
Qed.

Lemma C1_witness :
  compare (lit "1 2") (lit "1" ++ [NL] ++ lit "2") = Diff.
Proof.
  apply (proj1 (proj2 C1_match_iff_trimmed_blobs_equal)
               "1"%char "2"%char (lit " ") [NL]);
    [vm_compute; reflexivity | reflexivity | vm_compute; reflexivity
    | reflexivity | discriminate].
Defined.

(** C2. Trimming both texts before the comparison does not change its
    verdict: [compare a b] is [compare (trim a) (trim b)], for the
    program's own trimming and for any texts that are the two trimmings. *)
Theorem C2_compare_of_trimmed :
  forall a b : gostring,
    compare a b = compare (bytes.TrimSpace a) (bytes.TrimSpace b)
    /\ (forall ta tb : gostring,
           Trimmed a ta -> Trimmed b tb -> compare a b = compare ta tb).
Proof.
  assert (H : forall a b, compare a b
                          = compare (bytes.TrimSpace a) (bytes.TrimSpace b)).
  { intros a b. unfold compare. now rewrite !TrimSpace_idempotent. }
  intros a b. split; [apply H|].
  intros ta tb Ha Hb.
  now rewrite H, (TrimSpace_unique _ _ Ha), (TrimSpace_unique _ _ Hb).
Qed.

(** C3. Two texts that differ only in the newlines at their end are a
    [Match]; so are "5\n" and "5". *)
Theorem C3_trailing_newlines_match :
  (forall (t : gostring) (n m : nat),
      compare (t ++ repeat NL n) (t ++ repeat NL m) = Match)
  /\ compare (lit "5" ++ [NL]) (lit "5") = Match.
Proof.
  split; [|vm_compute; reflexivity].
  intros t n m. apply compare_Match_iff.
  now rewrite !TrimSpace_trailing_newlines.
Qed.

(** C7. A text compared with itself is a [Match]. *)
Theorem C7_compare_reflexive : forall a : gostring, compare a a = Match.
Proof. intros a. now apply compare_Match_iff. Qed.

(** C4. The table diff splits both blobs on "\n" and writes, between its
    frame, one row for each index below the length of the longer line
    sequence, in order; the row at an index holds the two lines there, a
    line that is missing read as the empty string; it is written as a
    differing row (in colour) exactly when its two lines are not equal as
    strings. For "1\n2\n3" against "1\n9\n3" index 1 alone differs; when
    expected has 2 lines and actual 4, the rows 2 and 3 hold the empty
    string against the lines of actual and differ unless that line is
    empty too. *)
Theorem C4_diff_rows :
  (forall expected actual : gostring,
      let expLines := strings.Split expected NL in
      let actLines := strings.Split actual NL in
      let rows := diffRows expLines actLines in
      Table.diffLines expected actual
      = (tableHeader
           ++ concat (map (fun row => stdout (tableRow row)) rows)
           ++ [tableFooter],
         Ret tt)
      /\ len rows = Z.max (len expLines) (len actLines)
      /\ (forall i, (i < length rows)%nat ->
                    nth i rows ([], []) = (nth i expLines [], nth i actLines []))
      /\ (forall i, (length expLines <= i)%nat -> nth i expLines [] = [])
      /\ (forall i, (length actLines <= i)%nat -> nth i actLines [] = [])
      /\ (forall e a,
             (e <> a -> tableRow (e, a) = Table.printColoredRow e a 38)
             /\ (e = a -> tableRow (e, a) = Table.printPlainRow e a 40))
      /\ (forall i, In i (differingIndices expLines actLines)
                    <-> (i < length rows)%nat
                        /\ nth i expLines [] <> nth i actLines [])
      /\ (length expLines = 2%nat -> length actLines = 4%nat ->
          length rows = 4%nat
          /\ forall i, i = 2%nat \/ i = 3%nat ->
                       nth i rows ([], []) = ([], nth i actLines [])
                       /\ (In i (differingIndices expLines actLines)
                           <-> nth i actLines [] <> [])))
  /\ (let expLines := strings.Split (lit "1" ++ [NL] ++ lit "2" ++ [NL] ++ lit "3") NL in
      let actLines := strings.Split (lit "1" ++ [NL] ++ lit "9" ++ [NL] ++ lit "3") NL in
      diffRows expLines actLines
      = [(lit "1", lit "1"); (lit "2", lit "9"); (lit "3", lit "3")]
      /\ differingIndices expLines actLines = [1%nat]).
Proof.
  split; [|split; vm_compute; reflexivity].
  intros expected actual expLines actLines rows.
  split; [apply Table_diffLines_rows|].
  split; [unfold len, rows; rewrite diffRows_length; lia|].
  split; [apply diffRows_nth|].
  split; [intros i Hi; now apply nth_overflow|].
  split; [intros i Hi; now apply nth_overflow|].
  split.
  { intros e a. unfold tableRow. split.
    - intros H. apply differing_true in H. now rewrite H.
    - intros ->. unfold differing. now rewrite string_eqb_refl. }
  split.
  { intros i. unfold rows. rewrite diffRows_length. apply differingIndices_In. }
  intros H2 H4.
  assert (Hl : length rows = 4%nat) by (unfold rows; rewrite diffRows_length; lia).
  split; [exact Hl|].
  intros i Hi.
  assert (He : nth i expLines [] = []) by (apply nth_overflow; lia).
  split.
  - unfold rows. rewrite diffRows_nth by (fold rows; lia). now rewrite He.
  - rewrite differingIndices_In, He. split.
    + intros [_ H] E. apply H. now rewrite E.
    + intros H. split; [lia|]. intros E. apply H. now rewrite <- E.
Qed.

Lemma C4_witness :
  let expLines := strings.Split (lit "a" ++ [NL] ++ lit "b") NL in
  let actLines := strings.Split (lit "a" ++ [NL] ++ lit "b" ++ [NL; NL] ++ lit "c") NL in
  length (diffRows expLines actLines) = 4%nat
  /\ (nth 2 (diffRows expLines actLines) ([], []) = ([], [])
      /\ ~ In 2%nat (differingIndices expLines actLines))
  /\ (nth 3 (diffRows expLines actLines) ([], []) = ([], lit "c")
      /\ In 3%nat (differingIndices expLines actLines)).
Proof.
  cbv zeta.
  pose proof (proj1 C4_diff_rows (lit "a" ++ [NL] ++ lit "b")
                (lit "a" ++ [NL] ++ lit "b" ++ [NL; NL] ++ lit "c")) as H.
  cbv zeta in H.
  destruct H as (_ & _ & _ & _ & _ & _ & _ & H).
  destruct (H eq_refl eq_refl) as [Hl Hrows].
  split; [exact Hl|]. split.
  - destruct (Hrows 2%nat (or_introl eq_refl)) as [Hn Hin].
    split; [exact Hn|]. intros C. apply Hin in C. now apply C.
  - destruct (Hrows 3%nat (or_intror eq_refl)) as [Hn Hin].
    split; [exact Hn|]. apply Hin. discriminate.
Defined.

(** C6. The unified diff writes its two header lines and then, for each
    differing row and for no other, the expected line after "- " and the
    actual line after "+ "; the pairs written are as many as the indices
    of differing rows. *)
Theorem C6_unified_pairs :
  forall expected actual : gostring,
    let expLines := strings.Split expected NL in
    let actLines := strings.Split actual NL in
    let rows := diffRows expLines actLines in
    Unified.diffLines expected actual
    = (unifiedHeader ++ concat (map unifiedRow rows), Ret tt)
    /\ (forall e a,
           (e <> a -> unifiedRow (e, a)
                      = [lit "- " ++ e ++ [NL]; lit "+ " ++ a ++ [NL]])
           /\ (e = a -> unifiedRow (e, a) = []))
    /\ (forall i, In i (differingIndices expLines actLines)
                  <-> (i < length rows)%nat
                      /\ nth i expLines [] <> nth i actLines [])
    /\ length (concat (map unifiedRow rows))
       = (2 * length (differingIndices expLines actLines))%nat.
Proof.
  intros expected actual expLines actLines rows.
  split; [apply Unified_diffLines_rows|].
  split.
  { intros e a. unfold unifiedRow. split.
    - intros H. apply differing_true in H. now rewrite H.
    - intros ->. unfold differing. now rewrite string_eqb_refl. }
  split.
  { intros i. unfold rows. rewrite diffRows_length. apply differingIndices_In. }
  apply unified_rows_length.
Qed.

(** C5, as the program has it. For a width [w] of at least 3 and a line
    longer than [w], [truncate] returns the first [w-3] bytes of the line
    and then the three bytes "...", [w] bytes in all; 50 times 'x' at width
    10 gives "xxxxxxx...". *)
Theorem C5_truncate_long :
  (forall (s : gostring) (w : Z),
      is_int w -> 3 <= w -> w < len s ->
      Table.truncate s w = Ret (firstn (Z.to_nat (w - 3)) s ++ lit "...")
      /\ len (firstn (Z.to_nat (w - 3)) s ++ lit "...") = w)
  /\ Table.truncate (repeat "x"%char 50) 10 = Ret (lit "xxxxxxx...").
Proof.
  split; [|vm_compute; reflexivity].
  intros s w Hi H3 Hl. split; [now apply truncate_long|].
  rewrite len_app. unfold len in *. rewrite length_firstn.
  change (length (lit "...")) with 3%nat. lia.
Qed.

Lemma C5_witness :
  Table.truncate (lit "abcdefgh") 5 = Ret (lit "ab...")
  /\ len (lit "ab...") = 5.
Proof.
  apply (proj1 C5_truncate_long (lit "abcdefgh") 5);
    [vm_compute; split; discriminate | lia | vm_compute; reflexivity].
Defined.

(** C5, as the claim has it, fails below width 3: a line of four bytes at
    width 2 is longer than the width, and [truncate] returns no string of
    2 bytes for it (it panics). *)
Lemma C5_counterexample :
  2 < len (lit "abcd")
  /\ Table.truncate (lit "abcd") 2 = Panic
  /\ ~ (exists r, Table.truncate (lit "abcd") 2 = Ret r /\ len r = 2).
Proof.
  split; [vm_compute; reflexivity|].
  split; [vm_compute; reflexivity|].
  intros (r & H & _). vm_compute in H. discriminate.
Qed.

(** C9. For a width below 3 and a string longer than the width,
    [truncate] panics: the bound [max-3] of the slice is negative, or, when
    the subtraction wraps around, far past the end of any string. *)
Theorem C9_truncate_narrow_panics :
  forall (s : gostring) (max : Z),
    is_int max -> len s <= maxAlloc ->
    max < 3 -> max < len s ->
    Table.truncate s max = Panic.
Proof. intros s max Hi Ha H3 Hl. now apply truncate_narrow. Qed.

Lemma C9_witness : Table.truncate (lit "abc") 2 = Panic.
Proof.
  apply (C9_truncate_narrow_panics (lit "abc") 2);
    [vm_compute; split; discriminate | vm_compute; discriminate
    | lia | vm_compute; reflexivity].
Defined.

(** C10. A string no longer than the width comes back unchanged, at any
    width, the narrow ones included. *)
Theorem C10_truncate_fits :
  forall (s : gostring) (max : Z),
    len s <= max -> Table.truncate s max = Ret s.
Proof. intros s max H. now apply truncate_fits. Qed.

Lemma C10_witness : Table.truncate [] 0 = Ret [].
Proof. apply (C10_truncate_fits [] 0). vm_compute. discriminate. Defined.

(** C8. A mismatch is not an error of the run. When every step before the
    comparison succeeds, [compileAndRun] returns nil in both revisions of
    the runner, whatever the two files hold, and its output carries the
    verdict: on a mismatch the message and the whole diff, on a match the
    message alone. *)
Theorem C8_mismatch_returns_nil :
  forall (w : World) (lang src inp out exp expected actual : gostring)
         (cleanup : bool),
    steps_succeed w -> supported lang ->
    os_ReadFile w out = inl actual -> os_ReadFile w exp = inl expected ->
    (result (Unified.compileAndRun w lang src inp out exp) = Ret None
     /\ writes (stdout (Unified.compileAndRun w lang src inp out exp))
               (report Unified.diffLines expected actual))
    /\ (result (Table.compileAndRun w lang src inp out exp cleanup) = Ret None
        /\ writes (stdout (Table.compileAndRun w lang src inp out exp cleanup))
                  (report Table.diffLines expected actual))
    /\ (compare expected actual = Diff ->
        report Unified.diffLines expected actual
        = (lit "Output differs from expected:" ++ [NL])
            :: stdout (Unified.diffLines expected actual)
        /\ report Table.diffLines expected actual
           = (lit "Output differs from expected:" ++ [NL])
               :: stdout (Table.diffLines expected actual)).
Proof.
  intros w lang src inp out exp expected actual cleanup Hs Hl Ha He.
  split; [now apply Unified_compileAndRun_reports|].
  split; [now apply Table_compileAndRun_reports|].
  intros Hd. unfold report. now rewrite Hd.
Qed.

Lemma C2_witness :
  compare (lit " 5 ") (lit "5" ++ [NL]) = compare (lit "5") (lit "5").
Proof.
  apply (proj2 (C2_compare_of_trimmed (lit " 5 ") (lit "5" ++ [NL]))).
  - exact (TrimSpace_spec (lit " 5 ")).
  - exact (TrimSpace_spec (lit "5" ++ [NL])).
Defined.

Lemma C6_witness :
  unifiedRow (lit "2", lit "9") = [lit "- 2" ++ [NL]; lit "+ 9" ++ [NL]]
  /\ unifiedRow (lit "3", lit "3") = [].
Proof.
  destruct (C6_unified_pairs [] []) as (_ & H & _).
  split.
  - apply (proj1 (H (lit "2") (lit "9"))). discriminate.
  - apply (proj2 (H (lit "3") (lit "3"))). reflexivity.
Defined.

Lemma C8_witness :
  compare (lit "5" ++ [NL]) (lit "6" ++ [NL]) = Diff
  /\ result (Unified.compileAndRun sample_world (lit "python") (lit "sol.py")
               (lit "in.txt") (lit "out.txt") (lit "expected.txt")) = Ret None
  /\ result (Table.compileAndRun sample_world (lit "python") (lit "sol.py")
               (lit "in.txt") (lit "out.txt") (lit "expected.txt") true) = Ret None.
Proof.
  split; [vm_compute; reflexivity|].
  assert (Hs : steps_succeed sample_world) by (repeat split).
  assert (Hl : supported (lit "python")) by (vm_compute; tauto).
  destruct (C8_mismatch_returns_nil sample_world (lit "python") (lit "sol.py")
              (lit "in.txt") (lit "out.txt") (lit "expected.txt")
              (lit "5" ++ [NL]) (lit "6" ++ [NL]) true Hs Hl eq_refl eq_refl)
    as ((HU & _) & (HT & _) & _).
  split; assumption.
Defined.

(** * Further properties *)

(** ** Lines: [strings.Split] and [strings.Join] *)

Lemma Join_cons (x : gostring) (rest : list gostring) (sep : gostring) :
  rest <> [] -> strings.Join (x :: rest) sep = x ++ sep ++ strings.Join rest sep.
Proof. destruct rest; [congruence|reflexivity]. Qed.

Lemma Split_from_nonempty (cur s : gostring) (sep : byte) :
  strings.Split_from cur s sep <> [].
Proof.
  pose proof (Split_from_length cur s sep) as H.
  destruct (strings.Split_from cur s sep); [cbn in H; lia|discriminate].
Qed.

Lemma Join_Split_from (cur s : gostring) :
  strings.Join (strings.Split_from cur s NL) [NL] = rev cur ++ s.
Proof.
  revert cur. induction s as [|c s IH]; intros cur; cbn [strings.Split_from].
  - cbn. now rewrite app_nil_r.
  - destruct (Ascii.eqb_spec c NL) as [->|Hc].
    + rewrite Join_cons by apply Split_from_nonempty. now rewrite IH.
    + rewrite IH. cbn [rev]. now rewrite <- app_assoc.
Qed.

Lemma Split_from_count (cur s : gostring) :
  length (strings.Split_from cur s NL) = S (count_NL s).
Proof.
  revert cur. induction s as [|c s IH]; intros cur; [reflexivity|].
  cbn [strings.Split_from]. unfold count_NL in *. cbn [filter].
  destruct (Ascii.eqb c NL); cbn [length]; now rewrite IH.
Qed.

Lemma Split_from_one_line (cur s : gostring) :
  one_line cur -> Forall one_line (strings.Split_from cur s NL).
Proof.
  revert cur. induction s as [|c s IH]; intros cur Hcur; cbn [strings.Split_from].
  - constructor; [|constructor]. unfold one_line in *. now rewrite <- in_rev.
  - destruct (Ascii.eqb_spec c NL) as [->|Hc].
    + constructor.
      * unfold one_line in *. now rewrite <- in_rev.
      * apply IH. intros [].
    + apply IH. intros [E|E]; [congruence|contradiction].
Qed.

Lemma Split_from_app (cur x s : gostring) :
  one_line x ->
  strings.Split_from cur (x ++ s) NL = strings.Split_from (rev x ++ cur) s NL.
Proof.
  revert cur. induction x as [|c x IH]; intros cur Hx; [reflexivity|].
  cbn [app strings.Split_from].
  destruct (Ascii.eqb_spec c NL) as [->|Hc]; [exfalso; apply Hx; now left|].
  rewrite IH by (intros E; apply Hx; now right).
  cbn [rev]. now rewrite <- app_assoc.
Qed.

Lemma Split_Join (lines : list gostring) :
  lines <> [] -> Forall one_line lines ->
  strings.Split (strings.Join lines [NL]) NL = lines.
Proof.
  unfold strings.Split.
  induction lines as [|x rest IH]; [congruence|intros _ H].
  inversion H as [|? ? Hx Hrest]; subst.
  destruct rest as [|y rest].
  - cbn [strings.Join]. rewrite <- (app_nil_r x) at 1.
    rewrite Split_from_app by assumption. cbn. now rewrite app_nil_r, rev_involutive.
  - rewrite Join_cons by discriminate.
    rewrite Split_from_app by assumption. cbn [app strings.Split_from].
    rewrite Ascii.eqb_refl, app_nil_r, rev_involutive.
    f_equal. apply IH; [discriminate|assumption].
Qed.

(** X1. Splitting a text into lines and joining the lines with newlines
    gives the text back, and the other way round for lines that hold no
    newline: the line sequence that the diff works on loses nothing of the
    blob. *)
Theorem X1_split_join_round_trip :
  (forall s : gostring, strings.Join (strings.Split s NL) [NL] = s)
  /\ (forall lines : list gostring,
         lines <> [] -> Forall one_line lines ->
         strings.Split (strings.Join lines [NL]) NL = lines).
Proof.
  split; [|exact Split_Join].
  intros s. unfold strings.Split. now rewrite Join_Split_from.
Qed.

Lemma X1_witness :
  strings.Split (strings.Join [lit "a"; []; lit "b"] [NL]) NL
  = [lit "a"; []; lit "b"].
Proof.
  apply (proj2 X1_split_join_round_trip); [discriminate|].
  repeat constructor; unfold one_line; cbn; intuition discriminate.
Defined.

(** X2. A text with n newline bytes splits into n+1 lines, none of which
    holds a newline; the empty text is one empty line, and a text that
    ends in a newline has an empty last line. *)
Theorem X2_split_lines :
  forall s : gostring,
    length (strings.Split s NL) = S (count_NL s)
    /\ Forall one_line (strings.Split s NL)
    /\ last (strings.Split (s ++ [NL]) NL) [NL] = [].
Proof.
  intros s. split; [apply Split_from_count|].
  split; [apply Split_from_one_line; intros []|].
  unfold strings.Split.
  assert (H : forall cur, last (strings.Split_from cur (s ++ [NL]) NL) [NL] = []);
    [|apply H].
  induction s as [|c s IH]; intros cur.
  - reflexivity.
  - cbn [app strings.Split_from].
    destruct (Ascii.eqb c NL); [|apply IH].
    pose proof (Split_from_nonempty [] (s ++ [NL]) NL) as N.
    specialize (IH []). cbn [last].
    destruct (strings.Split_from [] (s ++ [NL]) NL); [congruence|exact IH].
Qed.

(** ** The verdict and the rows *)

Lemma Join_empty_lines (x : gostring) (k : nat) :
  strings.Join (x :: repeat [] k) [NL] = x ++ repeat NL k.
Proof.
  revert x. induction k as [|k IH]; intros x; [cbn; now rewrite app_nil_r|].
  cbn [repeat]. rewrite Join_cons by discriminate. now rewrite IH.
Qed.

Lemma Join_app_empty_lines (E : list gostring) (k : nat) :
  E <> [] ->
  strings.Join (E ++ repeat [] k) [NL] = strings.Join E [NL] ++ repeat NL k.
Proof.
  induction E as [|x E IH]; [congruence|intros _].
  destruct E as [|y E].
  - cbn [app strings.Join]. apply Join_empty_lines.
  - cbn [app]. rewrite !Join_cons by discriminate.
    change (y :: E ++ repeat [] k) with ((y :: E) ++ repeat [] k).
    rewrite IH by discriminate.
    rewrite (Join_cons x (y :: E)) by discriminate. now rewrite <- !app_assoc.
Qed.

(** Two line sequences that agree at every index, a missing line read as
    empty, differ by empty lines at the end of the longer one. *)
Lemma lines_agree_tail (E A : list gostring) :
  (forall i, nth i E [] = nth i A []) ->
  (length E <= length A)%nat ->
  A = E ++ repeat [] (length A - length E).
Proof.
  revert A. induction E as [|x E IH]; intros A H Hl.
  - cbn [app length]. rewrite Nat.sub_0_r.
    induction A as [|y A IHA]; [reflexivity|].
    cbn [length repeat]. pose proof (H 0%nat) as H0. cbn in H0. subst y.
    f_equal. apply IHA; [|cbn; lia]. intros i. specialize (H (S i)).
    cbn in H. now destruct i.
  - destruct A as [|y A]; [cbn in Hl; lia|].
    pose proof (H 0%nat) as H0. cbn in H0. subst y.
    cbn [app length Nat.sub]. f_equal. apply IH; [|cbn in Hl; lia].
    intros i. exact (H (S i)).
Qed.

Lemma no_differing_agree (E A : list gostring) :
  differingIndices E A = [] -> forall i, nth i E [] = nth i A [].
Proof.
  intros H i.
  destruct (Nat.lt_ge_cases i (Nat.max (length E) (length A))) as [Hi|Hi].
  - destruct (string_eqb (nth i E []) (nth i A [])) eqn:Q;
      [now apply string_eqb_eq|].
    assert (In i (differingIndices E A)).
    { apply differingIndices_In. split; [assumption|now apply string_eqb_neq]. }
    rewrite H in *. contradiction.
  - rewrite !nth_overflow by lia. reflexivity.
Qed.

Lemma agree_Match (expected actual : gostring) :
  (forall i, nth i (strings.Split expected NL) []
             = nth i (strings.Split actual NL) []) ->
  (length (strings.Split expected NL) <= length (strings.Split actual NL))%nat ->
  bytes.TrimSpace actual = bytes.TrimSpace expected.
Proof.
  intros H Hl.
  pose proof (lines_agree_tail _ _ H Hl) as E.
  apply (f_equal (fun l => strings.Join l [NL])) in E.
  unfold strings.Split in E at 1.
  rewrite Join_Split_from in E. cbn [rev app] in E.
  rewrite Join_app_empty_lines in E by apply Split_from_nonempty.
  unfold strings.Split in E. rewrite Join_Split_from in E. cbn [rev app] in E.
  rewrite E. apply TrimSpace_trailing_newlines.
Qed.

(** X3. On a mismatch the diff is never empty: when the comparison says
    [Diff], at least one row of the two line sequences is a differing row,
    so the unified diff writes at least one pair after its two header
    lines. *)
Theorem X3_mismatch_has_differing_row :
  forall expected actual : gostring,
    compare expected actual = Diff ->
    differingIndices (strings.Split expected NL) (strings.Split actual NL) <> []
    /\ (4 <= length (stdout (Unified.diffLines expected actual)))%nat.
Proof.
  intros expected actual Hd.
  assert (Hne : differingIndices (strings.Split expected NL)
                                 (strings.Split actual NL) <> []).
  { intros Hnone. apply compare_Diff_iff in Hd. apply Hd.
    pose proof (no_differing_agree _ _ Hnone) as Hag.
    destruct (Nat.le_ge_cases (length (strings.Split expected NL))
                              (length (strings.Split actual NL))) as [Hl|Hl].
    - symmetry. now apply agree_Match.
    - apply agree_Match; [|assumption]. intros i. symmetry. apply Hag. }
  split; [exact Hne|].
  rewrite Unified_diffLines_rows. cbn [stdout fst].
  rewrite length_app, unified_rows_length. cbn [unifiedHeader length].
  destruct (differingIndices _ _); [congruence|cbn [length]; lia].
Qed.

Lemma X3_witness :
  differingIndices (strings.Split (lit "1" ++ [NL] ++ lit "2") NL)
                   (strings.Split (lit "1" ++ [NL] ++ lit "3") NL) <> [].
Proof.
  apply (X3_mismatch_has_differing_row (lit "1" ++ [NL] ++ lit "2")
                                       (lit "1" ++ [NL] ++ lit "3")).
  vm_compute. reflexivity.
Defined.

(** X4. The verdict does not depend on which file is called the expected
    one, and matching chains: if [a] matches [b] and [b] matches [c], then
    [a] matches [c]. *)
Theorem X4_compare_symmetric_transitive :
  forall a b c : gostring,
    compare a b = compare b a
    /\ (compare a b = Match -> compare b c = Match -> compare a c = Match).
Proof.
  intros a b c. split.
  - destruct (compare a b) eqn:E1, (compare b a) eqn:E2; try reflexivity.
    + apply compare_Match_iff in E1. apply compare_Diff_iff in E2. congruence.
    + apply compare_Diff_iff in E1. apply compare_Match_iff in E2. congruence.
  - rewrite !compare_Match_iff. congruence.
Qed.

Lemma X4_witness :
  compare (lit " 7") (lit "7" ++ [NL]) = Match.
Proof.
  apply (proj2 (X4_compare_symmetric_transitive (lit " 7") (lit "7") (lit "7" ++ [NL])));
    vm_compute; reflexivity.
Defined.

(** ** White space around a text *)

Lemma LeftTrim_app_Spaces (t m r : gostring) :
  Spaces r -> LeftTrim t m ->
  LeftTrim (t ++ r) (match m with [] => [] | _ => m ++ r end).
Proof.
  intros Hr H.
  pose proof (Spaces_head r Hr) as Hh.
  assert (E : forall s, s <> [] -> utf8.DecodeRune (s ++ r) = utf8.DecodeRune s).
  { intros s Hs. destruct r as [|d r']; [now rewrite app_nil_r|].
    rewrite !DecodeRune_decode. now apply decode_app_start. }
  induction H as [|s Hs Hsp|s m Hs Hsp H IH].
  - cbn [app]. rewrite <- (app_nil_r r) at 1.
    apply LeftTrim_Spaces; [assumption|constructor].
  - destruct s as [|x s]; [congruence|].
    apply LT_stop; [discriminate|]. now rewrite E.
  - apply LT_step; [now destruct s|now rewrite E|].
    rewrite E by assumption. pose proof (decode_size s Hs) as Hw.
    rewrite <- DecodeRune_decode in Hw.
    rewrite slice_from_app by lia. exact IH.
Qed.

Lemma Trimmed_around (l t r x : gostring) :
  Spaces l -> Spaces r -> Trimmed t x -> Trimmed (l ++ t ++ r) x.
Proof.
  intros Hl Hr (m & L & R).
  pose proof (LeftTrim_app_Spaces t m r Hr L) as L'.
  destruct m as [|c m].
  - inversion R; subst; try congruence.
    exists []. split; [now apply LeftTrim_Spaces|constructor].
  - exists ((c :: m) ++ r). split; [now apply LeftTrim_Spaces|].
    now apply RightTrim_Spaces.
Qed.

Lemma Spaces_ascii (ws : gostring) :
  Forall (fun c => bytes.asciiSpace c = true) ws -> Spaces ws.
Proof.
  induction 1 as [|c ws Hc Hws IH]; [constructor|].
  change (c :: ws) with ([c] ++ ws).
  assert (Ha : b2z c < 128).
  { revert Hc. unfold bytes.asciiSpace. pose proof (b2z_range c).
    repeat match goal with
           | |- context [?a =? ?b] => destruct (Z.eqb_spec a b)
           end; cbn; intros; try lia; discriminate. }
  apply Spaces_cons; [discriminate| | |assumption];
    rewrite DecodeRune_decode, decode_ascii by assumption; cbn [fst snd].
  - now rewrite asciiSpace_IsSpace.
  - reflexivity.
Qed.

(** X5. White space around a text does not count: for any text [t] and
    any runs of white space before and after it on either side, be they
    blanks, tabs, carriage returns, newlines or the white-space runes
    of Unicode in UTF-8, the two blobs are a [Match]. *)
Theorem X5_outer_white_space_ignored :
  forall t l1 r1 l2 r2 : gostring,
    (Spaces l1 -> Spaces r1 -> Spaces l2 -> Spaces r2 ->
     compare (l1 ++ t ++ r1) (l2 ++ t ++ r2) = Match)
    /\ (Forall (fun c => bytes.asciiSpace c = true) (l1 ++ r1 ++ l2 ++ r2) ->
        compare (l1 ++ t ++ r1) (l2 ++ t ++ r2) = Match).
Proof.
  intros t l1 r1 l2 r2.
  assert (H : Spaces l1 -> Spaces r1 -> Spaces l2 -> Spaces r2 ->
              compare (l1 ++ t ++ r1) (l2 ++ t ++ r2) = Match).
  { intros H1 H2 H3 H4. apply compare_Match_iff.
    rewrite (TrimSpace_unique _ _ (Trimmed_around l1 t r1 _ H1 H2 (TrimSpace_spec t))).
    now rewrite (TrimSpace_unique _ _ (Trimmed_around l2 t r2 _ H3 H4 (TrimSpace_spec t))). }
  split; [exact H|].
  intros F. rewrite !Forall_app in F. destruct F as (F1 & F2 & F3 & F4).
  apply H; now apply Spaces_ascii.
Qed.

Lemma X5_witness :
  compare (lit "  42" ++ [ascii_of_nat 13; NL])
          ([ascii_of_nat 9] ++ lit "42" ++ [NL; NL]) = Match.
Proof.
  apply (proj2 (X5_outer_white_space_ignored (lit "42") (lit "  ")
                  [ascii_of_nat 13; NL] [ascii_of_nat 9] [NL; NL])).
  repeat constructor.
Defined.

(** ** Truncation and the width of a cell *)

(** X6. At a width of 3 or more [truncate] never panics, returns a string
    of [min(len(s), w)] bytes that starts as [s] does for [w-3] bytes, and
    leaves its own result as it is when applied to it again. *)
Theorem X6_truncate_wide :
  forall (s : gostring) (w : Z),
    is_int w -> 3 <= w ->
    exists r,
      Table.truncate s w = Ret r
      /\ len r = Z.min (len s) w
      /\ firstn (Z.to_nat (w - 3)) r = firstn (Z.to_nat (w - 3)) s
      /\ Table.truncate r w = Ret r.
Proof.
  intros s w Hi H3.
  destruct (Z_le_gt_dec (len s) w) as [Hle|Hgt].
  - exists s. rewrite truncate_fits by assumption.
    split; [reflexivity|]. split; [lia|]. split; reflexivity.
  - exists (firstn (Z.to_nat (w - 3)) s ++ lit "...").
    rewrite truncate_long by (assumption || lia).
    assert (Hl : length (firstn (Z.to_nat (w - 3)) s) = Z.to_nat (w - 3)).
    { rewrite length_firstn. unfold len in *. lia. }
    assert (Hlen : len (firstn (Z.to_nat (w - 3)) s ++ lit "...") = w).
    { rewrite len_app. unfold len. rewrite Hl.
      change (length (lit "...")) with 3%nat. lia. }
    split; [reflexivity|]. split; [lia|]. split.
    + rewrite firstn_app, Hl, Nat.sub_diag, firstn_firstn, Nat.min_id.
      cbn [firstn]. now rewrite app_nil_r.
    + apply truncate_fits. lia.
Qed.

Lemma X6_witness :
  exists r,
    Table.truncate (lit "abcdefgh") 5 = Ret r
    /\ len r = Z.min (len (lit "abcdefgh")) 5
    /\ firstn (Z.to_nat (5 - 3)) r = firstn (Z.to_nat (5 - 3)) (lit "abcdefgh")
    /\ Table.truncate r 5 = Ret r.
Proof.
  apply (X6_truncate_wide (lit "abcdefgh") 5);
    [vm_compute; split; discriminate | lia].
Defined.

(** *** Counting runes *)

Lemma RuneCount_loop_fuel (fuel1 fuel2 : nat) (s : gostring) (n : Z) :
  (length s <= fuel1)%nat -> (length s <= fuel2)%nat ->
  utf8.RuneCount_loop fuel1 s n = utf8.RuneCount_loop fuel2 s n.
Proof.
  revert fuel2 s n. induction fuel1 as [|fuel1 IH]; intros fuel2 s n H1 H2.
  - destruct s; [|cbn in H1; lia]. now destruct fuel2.
  - destruct s as [|c s]; [now destruct fuel2|].
    destruct fuel2 as [|fuel2]; [cbn in H2; lia|].
    cbn [utf8.RuneCount_loop].
    pose proof (decode_size (c :: s) ltac:(discriminate)) as Hw.
    rewrite <- DecodeRune_decode in Hw.
    apply IH; unfold slice_from; rewrite length_skipn; cbn [length] in *; lia.
Qed.

Lemma RuneCount_loop_acc (fuel : nat) (s : gostring) (n : Z) :
  utf8.RuneCount_loop fuel s n = n + utf8.RuneCount_loop fuel s 0.
Proof.
  revert s n. induction fuel as [|fuel IH]; intros s n; cbn; [lia|].
  destruct s; [lia|]. rewrite IH, (IH _ (0 + 1)). lia.
Qed.

Lemma RuneCount_nil : utf8.RuneCountInString [] = 0.
Proof. reflexivity. Qed.

Lemma RuneCount_step (s : gostring) :
  s <> [] ->
  utf8.RuneCountInString s
  = 1 + utf8.RuneCountInString (slice_from s (snd (utf8.DecodeRune s))).
Proof.
  intros Hs. destruct s as [|c s]; [congruence|].
  unfold utf8.RuneCountInString. cbn [length utf8.RuneCount_loop].
  rewrite RuneCount_loop_acc.
  f_equal. apply RuneCount_loop_fuel; [|lia].
  pose proof (decode_size (c :: s) ltac:(discriminate)) as Hw.
  rewrite <- DecodeRune_decode in Hw.
  unfold slice_from. rewrite length_skipn. cbn [length]. lia.
Qed.

(** Induction on texts along the steps of the decoder. *)
Lemma rune_ind (P : gostring -> Prop) :
  P [] ->
  (forall s, s <> [] -> P (slice_from s (snd (utf8.DecodeRune s))) -> P s) ->
  forall s, P s.
Proof.
  intros H0 Hstep s.
  assert (H : forall n s, (length s <= n)%nat -> P s).
  { clear s. induction n as [|n IH]; intros s Hn.
    - destruct s; [assumption|cbn in Hn; lia].
    - destruct s as [|c s]; [assumption|].
      apply Hstep; [discriminate|]. apply IH.
      pose proof (decode_size (c :: s) ltac:(discriminate)) as Hw.
      rewrite <- DecodeRune_decode in Hw.
      unfold slice_from. rewrite length_skipn. cbn [length] in *. lia. }
  exact (H (length s) s (le_n _)).
Qed.

(** A text has at most as many runes as bytes. *)
Lemma RuneCount_bounds (s : gostring) : 0 <= utf8.RuneCountInString s <= len s.
Proof.
  induction s as [|s Hs IH] using rune_ind; [cbn; lia|].
  rewrite RuneCount_step by assumption.
  pose proof (decode_size s Hs) as Hw. rewrite <- DecodeRune_decode in Hw.
  rewrite len_slice_from in IH by lia. lia.
Qed.

(** Runes add up across a place where a rune can start. *)
Lemma RuneCount_app (u v : gostring) :
  match v with [] => True | d :: _ => utf8.RuneStart d = true end ->
  utf8.RuneCountInString (u ++ v)
  = utf8.RuneCountInString u + utf8.RuneCountInString v.
Proof.
  intros Hv. induction u as [|u Hu IH] using rune_ind; [cbn [app]; rewrite RuneCount_nil; lia|].
  assert (E : utf8.DecodeRune (u ++ v) = utf8.DecodeRune u).
  { destruct v as [|d v]; [now rewrite app_nil_r|].
    rewrite !DecodeRune_decode. now apply decode_app_start. }
  rewrite (RuneCount_step (u ++ v)) by (now destruct u).
  rewrite (RuneCount_step u) by assumption.
  rewrite E. pose proof (decode_size u Hu) as Hw. rewrite <- DecodeRune_decode in Hw.
  rewrite slice_from_app by lia. rewrite IH. lia.
Qed.

Lemma RuneCount_blanks (k : nat) :
  utf8.RuneCountInString (repeat " "%char k) = Z.of_nat k.
Proof.
  induction k as [|k IH]; [reflexivity|].
  rewrite RuneCount_step by discriminate. cbn [repeat].
  rewrite DecodeRune_decode, decode_ascii by (vm_compute; reflexivity).
  cbn [snd]. rewrite slice_from_1, IH. lia.
Qed.

(** Padding fills a string up to the width, counted in runes. *)
Lemma RuneCount_pad (wid : Z) (s : gostring) :
  utf8.RuneCountInString s <= wid ->
  utf8.RuneCountInString (fmt.pad_left_justified wid s) = wid.
Proof.
  intros H. pose proof (RuneCount_bounds s).
  unfold fmt.pad_left_justified.
  rewrite RuneCount_app, RuneCount_blanks by (destruct (Z.to_nat _); [exact I|reflexivity]).
  lia.
Qed.

(** X7. A cell of the table is exactly 38 runes wide, whatever the line:
    a line that fits is padded to 38 runes, a longer one is cut to 38
    bytes, which are at most 38 runes (fewer when the line holds
    multi-byte characters), and then padded. *)
Theorem X7_cell_is_38_runes :
  forall s : gostring,
    exists r,
      Table.truncate s 38 = Ret r
      /\ len r <= 38
      /\ utf8.RuneCountInString (fmt.pad_left_justified 38 r) = 38.
Proof.
  intros s.
  assert (H : exists r, Table.truncate s 38 = Ret r /\ len r <= 38).
  { destruct (Z_le_gt_dec (len s) 38) as [Hle|Hgt].
    - exists s. split; [now apply truncate_fits|assumption].
    - exists (firstn (Z.to_nat (38 - 3)) s ++ lit "...").
      split; [apply truncate_long; [vm_compute; split; discriminate|lia|lia]|].
      rewrite len_app. unfold len in *. rewrite length_firstn.
      change (length (lit "...")) with 3%nat. lia. }
  destruct H as (r & Hr & Hlen).
  exists r. split; [assumption|]. split; [assumption|].
  apply RuneCount_pad. pose proof (RuneCount_bounds r). lia.
Qed.

(** ** The table: alignment and lines *)

(** One complete rune at the front of a text counts for one. *)
Lemma RuneCount_rune (u v : gostring) :
  u <> [] -> snd (decode u) = len u ->
  2 <= len u \/ (exists c, u = [c] /\ b2z c < 128) ->
  utf8.RuneCountInString (u ++ v) = 1 + utf8.RuneCountInString v.
Proof.
  intros Hu Hsz Hk.
  assert (E : decode (u ++ v) = decode u).
  { destruct Hk as [H2|(c & -> & Hc)].
    - destruct (decode u) as [r n] eqn:D. cbn [snd] in Hsz. subst n.
      now apply decode_app.
    - cbn [app]. now rewrite !decode_ascii. }
  rewrite RuneCount_step by (now destruct u).
  rewrite DecodeRune_decode, E, Hsz.
  unfold slice_from, len. rewrite Nat2Z.id, skipn_app, skipn_all, Nat.sub_diag.
  reflexivity.
Qed.

Lemma RuneCount_ascii_cons (c : byte) (v : gostring) :
  b2z c < 128 ->
  utf8.RuneCountInString (c :: v) = 1 + utf8.RuneCountInString v.
Proof.
  intros Hc. apply (RuneCount_rune [c] v); [discriminate| |right; eauto].
  now rewrite decode_ascii.
Qed.

(** The box-drawing character of the columns, three bytes. *)
Lemma RuneCount_bar (v : gostring) :
  utf8.RuneCountInString (lit "║" ++ v) = 1 + utf8.RuneCountInString v.
Proof.
  apply RuneCount_rune; [discriminate|reflexivity|left; vm_compute; discriminate].
Qed.

Lemma RuneCount_ascii_app (u v : gostring) :
  is_ascii u = true ->
  utf8.RuneCountInString (u ++ v) = len u + utf8.RuneCountInString v.
Proof.
  induction u as [|c u IH]; [intros _; cbn [app]; unfold len; cbn; lia|].
  cbn [is_ascii forallb]. rewrite andb_true_iff. intros [Hc Hu].
  unfold utf8.RuneSelf in Hc. apply Z.ltb_lt in Hc.
  cbn [app]. rewrite RuneCount_ascii_cons, len_cons by assumption.
  rewrite IH by assumption. lia.
Qed.

Lemma RuneCount_cell_app (s v : gostring) (c : byte) :
  len s <= 38 -> b2z c < 128 ->
  utf8.RuneCountInString (fmt.pad_left_justified 38 s ++ c :: v)
  = 38 + utf8.RuneCountInString (c :: v).
Proof.
  intros Hs Hc. rewrite RuneCount_app.
  - rewrite RuneCount_pad; [reflexivity|]. pose proof (RuneCount_bounds s). lia.
  - rewrite RuneStart_range. destruct (Z.leb_spec 128 (b2z c)); [lia|reflexivity].
Qed.

Lemma truncate_38_len (s : gostring) :
  exists r, Table.truncate s 38 = Ret r /\ len r <= 38
            /\ (one_line s -> one_line r).
Proof.
  destruct (Z_le_gt_dec (len s) 38) as [Hle|Hgt].
  - exists s. split; [now apply truncate_fits|]. split; [assumption|auto].
  - exists (firstn (Z.to_nat (38 - 3)) s ++ lit "...").
    split; [apply truncate_long; [vm_compute; split; discriminate|lia|lia]|].
    split.
    + rewrite len_app. unfold len in *. rewrite length_firstn.
      change (length (lit "...")) with 3%nat. lia.
    + unfold one_line. intros Hs Hin. apply in_app_or in Hin.
      destruct Hin as [Hin|Hin].
      * apply Hs. rewrite <- (firstn_skipn (Z.to_nat (38 - 3)) s).
        apply in_or_app. now left.
      * cbn in Hin. intuition discriminate.
Qed.

(** X8. The rows of the table line up with its frame: the line written
    for a row of equal lines is 84 runes, as each of the three rules and
    the header line of the frame is, and the line written for a differing
    row is those 84 runes and the 18 bytes of its four colour codes. *)
Theorem X8_rows_align_with_frame :
  (forall e a : gostring,
      (exists out, Table.printPlainRow e a 40 = ([out], Ret tt)
                   /\ utf8.RuneCountInString out = 84)
      /\ (exists out, Table.printColoredRow e a 38 = ([out], Ret tt)
                      /\ utf8.RuneCountInString out = 84 + 18))
  /\ Forall (fun x => utf8.RuneCountInString x = 84) (tableFooter :: tableHeader)
  /\ len (Table.red ++ Table.reset ++ Table.green ++ Table.reset) = 18.
Proof.
  split; [|split; [repeat constructor|reflexivity]].
  intros e a.
  destruct (truncate_38_len e) as (te & Hte & Hle & _).
  destruct (truncate_38_len a) as (ta & Hta & Hla & _).
  assert (Hsp : b2z " "%char < 128) by (vm_compute; reflexivity).
  assert (Hesc : b2z (ascii_of_nat 27) < 128) by (vm_compute; reflexivity).
  split.
  - unfold Table.printPlainRow, lift. change (40 - 2) with 38.
    rewrite Hte, Hta. eexists. split; [reflexivity|].
    change (lit "║ " ++ ?x) with (lit "║" ++ " "%char :: x).
    rewrite RuneCount_bar, RuneCount_ascii_cons by assumption.
    change (lit " ║ " ++ ?x) with (" "%char :: (lit "║" ++ " "%char :: x)).
    rewrite RuneCount_cell_app by assumption.
    rewrite RuneCount_ascii_cons, RuneCount_bar, RuneCount_ascii_cons by assumption.
    change (lit " ║" ++ [NL]) with (" "%char :: lit "║" ++ [NL]).
    rewrite RuneCount_cell_app by assumption.
    reflexivity.
  - unfold Table.printColoredRow, lift.
    rewrite Hte, Hta. eexists. split; [reflexivity|].
    change (lit "║ " ++ ?x) with (lit "║" ++ " "%char :: x).
    rewrite RuneCount_bar, RuneCount_ascii_cons by assumption.
    rewrite (RuneCount_ascii_app Table.red) by reflexivity.
    change (Table.reset ++ ?x) with (@cons byte (ascii_of_nat 27) (lit "[0m" ++ x)).
    rewrite RuneCount_cell_app by assumption.
    rewrite RuneCount_ascii_cons by assumption.
    rewrite (RuneCount_ascii_app (lit "[0m")) by reflexivity.
    change (lit " ║ " ++ ?x) with (" "%char :: (lit "║" ++ " "%char :: x)).
    rewrite RuneCount_ascii_cons, RuneCount_bar, RuneCount_ascii_cons by assumption.
    rewrite (RuneCount_ascii_app Table.green) by reflexivity.
    change (Table.reset ++ ?x) with (@cons byte (ascii_of_nat 27) (lit "[0m" ++ x)).
    rewrite RuneCount_cell_app by assumption.
    reflexivity.
Qed.

Lemma one_line_b (s : gostring) :
  forallb (fun c => negb (Ascii.eqb c NL)) s = true -> one_line s.
Proof.
  rewrite forallb_forall. intros H Hin. specialize (H _ Hin).
  now rewrite Ascii.eqb_refl in H.
Qed.

Lemma one_line_app (u v : gostring) :
  one_line u -> one_line v -> one_line (u ++ v).
Proof.
  unfold one_line. intros Hu Hv Hin. apply in_app_or in Hin. tauto.
Qed.

Lemma one_line_pad (wid : Z) (s : gostring) :
  one_line s -> one_line (fmt.pad_left_justified wid s).
Proof.
  intros Hs. apply one_line_app; [assumption|].
  intros Hin. apply repeat_spec in Hin. discriminate.
Qed.

Lemma line_write_NL : line_write [NL].
Proof. exists []. split; [reflexivity|intros []]. Qed.

Lemma line_write_app (u v : gostring) :
  one_line u -> line_write v -> line_write (u ++ v).
Proof.
  intros Hu (s & -> & Hs). exists (u ++ s).
  split; [now rewrite app_assoc|now apply one_line_app].
Qed.

Ltac lines :=
  repeat first
    [ apply line_write_NL
    | apply line_write_app
    | apply one_line_pad
    | apply one_line_app
    | assumption
    | apply one_line_b; vm_compute; reflexivity ].

Lemma tableRow_line (e a : gostring) :
  one_line e -> one_line a ->
  exists out, stdout (tableRow (e, a)) = [out] /\ line_write out.
Proof.
  intros He Ha.
  destruct (truncate_38_len e) as (te & Hte & _ & Hle).
  destruct (truncate_38_len a) as (ta & Hta & _ & Hla).
  specialize (Hle He). specialize (Hla Ha).
  unfold tableRow, Table.printColoredRow, Table.printPlainRow, lift.
  change (40 - 2) with 38. rewrite Hte, Hta.
  destruct (differing e a); (eexists; split; [reflexivity|]); lines.
Qed.

Lemma unifiedRow_lines (e a : gostring) :
  one_line e -> one_line a -> Forall line_write (unifiedRow (e, a)).
Proof.
  intros He Ha. unfold unifiedRow.
  destruct (differing e a); repeat constructor; lines.
Qed.

Lemma diffRows_one_line (E A : list gostring) :
  Forall one_line E -> Forall one_line A ->
  Forall (fun row => one_line (fst row) /\ one_line (snd row)) (diffRows E A).
Proof.
  intros HE HA. unfold diffRows. apply Forall_map, Forall_forall.
  intros i _. unfold rowAt. cbn [fst snd].
  assert (H : forall L, Forall one_line L -> one_line (nth i L [])).
  { intros L HL. destruct (Nat.lt_ge_cases i (length L)).
    - rewrite Forall_forall in HL. apply HL. now apply nth_In.
    - rewrite nth_overflow by assumption. intros []. }
  split; now apply H.
Qed.

(** X9. Every write of a diff is one line of output, a text without
    newline and then a newline, in both styles: the lines of the blobs
    are never broken or merged on the way out. The table is its frame of
    four lines and one line for each row, that is 5 lines and as many more
    as the blob with more newline bytes has of them. *)
Theorem X9_diff_writes_are_lines :
  forall expected actual : gostring,
    Forall line_write (stdout (Table.diffLines expected actual))
    /\ length (stdout (Table.diffLines expected actual))
       = (5 + Nat.max (count_NL expected) (count_NL actual))%nat
    /\ Forall line_write (stdout (Unified.diffLines expected actual)).
Proof.
  intros expected actual.
  pose proof (diffRows_one_line _ _
                (Split_from_one_line [] expected (fun H => H))
                (Split_from_one_line [] actual (fun H => H))) as Hrows.
  fold (strings.Split expected NL) in Hrows.
  fold (strings.Split actual NL) in Hrows.
  rewrite Table_diffLines_rows, Unified_diffLines_rows. cbn [stdout fst].
  assert (Hlen : length (diffRows (strings.Split expected NL) (strings.Split actual NL))
                 = S (Nat.max (count_NL expected) (count_NL actual))).
  { rewrite diffRows_length. unfold strings.Split.
    rewrite !Split_from_count. lia. }
  revert Hrows Hlen.
  generalize (diffRows (strings.Split expected NL) (strings.Split actual NL)).
  intros rows Hrows Hlen.
  assert (HT : Forall line_write
                 (concat (map (fun row => stdout (tableRow row)) rows))
               /\ length (concat (map (fun row => stdout (tableRow row)) rows))
                  = length rows).
  { clear Hlen. induction Hrows as [|[e a] rows [He Ha] _ [IH1 IH2]];
      [split; [constructor|reflexivity]|].
    cbn [map concat fst snd] in *.
    destruct (tableRow_line e a He Ha) as (out & -> & Hout).
    cbn [app length]. split; [now constructor|now rewrite IH2]. }
  assert (HU : Forall line_write (concat (map unifiedRow rows))).
  { clear Hlen HT. induction Hrows as [|[e a] rows [He Ha] _ IH]; [constructor|].
    cbn [map concat fst snd] in *. apply Forall_app.
    split; [now apply unifiedRow_lines|assumption]. }
  destruct HT as [HT1 HT2].
  split; [|split].
  - apply Forall_app. split.
    + unfold tableHeader, tableRule. cbv zeta. repeat constructor; lines.
    + apply Forall_app. split; [assumption|].
      unfold tableFooter, tableRule. cbv zeta. repeat constructor; lines.
  - rewrite !length_app, HT2, Hlen. cbn [tableHeader length]. lia.
  - apply Forall_app. split; [|assumption].
    unfold unifiedHeader. repeat constructor; lines.
Qed.

(** ** The run function on every path *)

(** One step along the control flow of [compileAndRun]: unfold the
    writer, then split on the next test of the language or the next
    answer of the world. *)
Ltac run_unfold :=
  cbv beta iota zeta delta
      [bind ret check lift fmt.Println fmt.Printf Table.logVerbose];
  cbn [verboseFlag filepath_Base filepath_Ext filepath_Join os_MkdirAll
       compiler_Run os_Open os_Create program_Run os_ReadFile os_RemoveAll
       with_ReadFile with_compiler_Run with_verbose negb orb].

Ltac run_split :=
  match goal with
  | |- context [string_eqb ?l (lit ?s)] =>
      is_var l;
      let E := fresh "E" in
      destruct (string_eqb l (lit s)) eqn:E;
      [apply string_eqb_eq in E; subst l; eval_langs; cbv iota|]
  | |- context [verboseFlag ?w] => is_var w; destruct (verboseFlag w) eqn:?
  | |- context [os_MkdirAll ?w ?x] => destruct (os_MkdirAll w x) eqn:?
  | |- context [compiler_Run ?w ?x] => destruct (compiler_Run w x) eqn:?
  | |- context [os_Open ?w ?x] => destruct (os_Open w x) eqn:?
  | |- context [os_Create ?w ?x] => destruct (os_Create w x) eqn:?
  | |- context [program_Run ?w ?x] => destruct (program_Run w x) eqn:?
  | |- context [os_ReadFile ?w ?x] => destruct (os_ReadFile w x) eqn:?
  | |- context [os_RemoveAll ?w ?x] => destruct (os_RemoveAll w x) eqn:?
  | |- context [compare ?e ?a] => destruct (compare e a) eqn:?
  | |- context [if ?b then _ else _] => is_var b; destruct b
  end.

Ltac run_paths := run_unfold; repeat (run_split; run_unfold).

(** The diff, once its result is known, is only its writes. *)
Ltac diff_writes :=
  repeat match goal with
         | |- context [Table.diffLines ?e ?a] =>
             let o := fresh "o" in let r := fresh "r" in
             let H := fresh "H" in
             pose proof (Table_diffLines_result e a) as H;
             destruct (Table.diffLines e a) as [o r]; cbn in H; subst r
         | |- context [Unified.diffLines ?e ?a] =>
             let o := fresh "o" in let r := fresh "r" in
             let H := fresh "H" in
             pose proof (Unified_diffLines_result e a) as H;
             destruct (Unified.diffLines e a) as [o r]; cbn in H; subst r
         end.

(** X10. [compileAndRun] never panics, in either revision, whatever the
    language, the paths and the answers of the operating system: the
    build command is only used when it was set, and the table is only
    drawn at a width at which [truncate] is safe. *)
Theorem X10_compileAndRun_never_panics :
  forall (w : World) (lang src inp out exp : gostring) (cleanup : bool),
    result (Unified.compileAndRun w lang src inp out exp) <> Panic
    /\ result (Table.compileAndRun w lang src inp out exp cleanup) <> Panic.
Proof.
  intros w lang src inp out exp cleanup. split.
  - unfold Unified.compileAndRun. run_paths; diff_writes; run_unfold;
      cbn; discriminate.
  - unfold Table.compileAndRun. run_paths; diff_writes; run_unfold;
      cbn; discriminate.
Qed.

Ltac not_supported Hns :=
  exfalso; apply Hns; unfold supported; cbn [In]; tauto.

(** X11. A language that [compileAndRun] does not know is refused with
    the error "unsupported language: <lang>" before anything is built or
    run. The first revision writes nothing; the second has created its
    build directory first (and logged it when verbose), and when that
    fails its error comes before the language is even looked at. *)
Theorem X11_unsupported_language :
  forall (w : World) (lang src inp out exp : gostring) (cleanup : bool),
    ~ supported lang ->
    Unified.compileAndRun w lang src inp out exp
    = ([], Ret (Some (lit "unsupported language: " ++ lang)))
    /\ (os_MkdirAll w (lit "build") = None ->
        Table.compileAndRun w lang src inp out exp cleanup
        = ((if verboseFlag w
            then [lit "[verbose] Created build directory: build" ++ [NL]]
            else []),
           Ret (Some (lit "unsupported language: " ++ lang))))
    /\ (forall e, os_MkdirAll w (lit "build") = Some e ->
                  Table.compileAndRun w lang src inp out exp cleanup
                  = ([], Ret (Some (Errorf "failed to create build directory" e)))).
Proof.
  intros w lang src inp out exp cleanup Hns. split; [|split].
  - unfold Unified.compileAndRun. run_unfold.
    repeat (run_split; run_unfold; try solve [not_supported Hns]). reflexivity.
  - intros Hmk. unfold Table.compileAndRun. rewrite Hmk. run_unfold.
    repeat (run_split; run_unfold; try solve [not_supported Hns]); reflexivity.
  - intros e Hmk. unfold Table.compileAndRun. rewrite Hmk. reflexivity.
Qed.

Lemma X11_witness :
  Unified.compileAndRun sample_world (lit "ruby") (lit "sol.rb") (lit "in.txt")
                        (lit "out.txt") (lit "expected.txt")
  = ([], Ret (Some (lit "unsupported language: ruby"))).
Proof.
  apply (X11_unsupported_language sample_world (lit "ruby") (lit "sol.rb")
           (lit "in.txt") (lit "out.txt") (lit "expected.txt") false).
  unfold supported. cbn [In]. intuition discriminate.
Defined.

(** X12. A Python source is never compiled: for the language "python"
    the run, its output and its result are the same whatever the build
    command would have answered. *)
Theorem X12_python_is_not_compiled :
  forall (w : World) (f : list gostring -> option error)
         (src inp out exp : gostring) (cleanup : bool),
    Unified.compileAndRun (with_compiler_Run w f) (lit "python") src inp out exp
    = Unified.compileAndRun w (lit "python") src inp out exp
    /\ Table.compileAndRun (with_compiler_Run w f) (lit "python") src inp out exp
                           cleanup
       = Table.compileAndRun w (lit "python") src inp out exp cleanup.
Proof.
  intros w f src inp out exp cleanup. split.
  - unfold Unified.compileAndRun. eval_langs. reflexivity.
  - unfold Table.compileAndRun. eval_langs. reflexivity.
Qed.

Ltac lang_cases Hl :=
  unfold supported in Hl; cbn [In] in Hl;
  destruct Hl as [<-|[<-|[<-|[<-|[<-|[]]]]]]; eval_langs; cbv iota.

(** X13. A build that fails stops the run before the solution is
    executed: for a language that is compiled, the error of the build
    command comes back as "compilation failed: <error>" and the line
    "Executing..." is never written. *)
Theorem X13_failed_build_stops_the_run :
  forall (w : World) (lang src inp out exp e : gostring) (cleanup : bool),
    supported lang -> lang <> lit "python" ->
    (forall args, compiler_Run w args = Some e) ->
    (result (Unified.compileAndRun w lang src inp out exp)
     = Ret (Some (Errorf "compilation failed" e))
     /\ ~ In (lit "Executing..." ++ [NL])
             (stdout (Unified.compileAndRun w lang src inp out exp)))
    /\ (os_MkdirAll w (lit "build") = None ->
        result (Table.compileAndRun w lang src inp out exp cleanup)
        = Ret (Some (Errorf "compilation failed" e))
        /\ ~ In (lit "Executing..." ++ [NL])
                (stdout (Table.compileAndRun w lang src inp out exp cleanup))).
Proof.
  intros w lang src inp out exp e cleanup Hl Hpy Hc. split.
  - unfold Unified.compileAndRun.
    lang_cases Hl; try congruence; run_unfold; rewrite Hc; run_unfold;
      (split; [reflexivity|]); cbn [stdout fst app In];
      intros [H|[]]; vm_compute in H; discriminate.
  - intros Hmk. unfold Table.compileAndRun. rewrite Hmk.
    lang_cases Hl; try congruence; run_unfold;
      destruct (verboseFlag w); run_unfold; rewrite Hc; run_unfold;
      (split; [reflexivity|]); cbn [stdout fst app In];
      intuition discriminate.
Qed.

Lemma X13_witness :
  result (Unified.compileAndRun failing_build_world (lit "go") (lit "sol.go")
            (lit "in.txt") (lit "out.txt") (lit "expected.txt"))
  = Ret (Some (lit "compilation failed: exit status 1")).
Proof.
  assert (Hl : supported (lit "go")) by (unfold supported; cbn [In]; tauto).
  assert (Hp : lit "go" <> lit "python") by discriminate.
  destruct (X13_failed_build_stops_the_run failing_build_world (lit "go")
              (lit "sol.go") (lit "in.txt") (lit "out.txt") (lit "expected.txt")
              (lit "exit status 1") false Hl Hp (fun _ => eq_refl))
    as [[HU _] _].
  exact HU.
Defined.

(** X14. What the two files hold never changes what [compileAndRun]
    returns: in any world, as long as both files can be read, the result
    is the same for any two contents of the files, matching or not. *)
Theorem X14_result_independent_of_contents :
  forall (w : World) (f g : gostring -> gostring + error)
         (lang src inp out exp a e a' e' : gostring) (cleanup : bool),
    f out = inl a -> f exp = inl e -> g out = inl a' -> g exp = inl e' ->
    result (Unified.compileAndRun (with_ReadFile w f) lang src inp out exp)
    = result (Unified.compileAndRun (with_ReadFile w g) lang src inp out exp)
    /\ result (Table.compileAndRun (with_ReadFile w f) lang src inp out exp cleanup)
       = result (Table.compileAndRun (with_ReadFile w g) lang src inp out exp
                                     cleanup).
Proof.
  intros w f g lang src inp out exp a e a' e' cleanup Hfa Hfe Hga Hge.
  split.
  - unfold Unified.compileAndRun. run_unfold.
    repeat (first [run_split | progress rewrite ?Hfa, ?Hfe, ?Hga, ?Hge];
            run_unfold);
      diff_writes; reflexivity.
  - unfold Table.compileAndRun. run_unfold.
    repeat (first [run_split | progress rewrite ?Hfa, ?Hfe, ?Hga, ?Hge];
            run_unfold);
      diff_writes; reflexivity.
Qed.

Lemma X14_witness :
  result (Unified.compileAndRun
            (with_ReadFile sample_world (fun _ => inl (lit "1")))
            (lit "python") (lit "sol.py") (lit "in.txt") (lit "out.txt")
            (lit "expected.txt"))
  = result (Unified.compileAndRun
              (with_ReadFile sample_world (os_ReadFile sample_world))
              (lit "python") (lit "sol.py") (lit "in.txt") (lit "out.txt")
              (lit "expected.txt")).
Proof.
  apply (X14_result_independent_of_contents sample_world
           (fun _ => inl (lit "1")) (os_ReadFile sample_world)
           (lit "python") (lit "sol.py") (lit "in.txt") (lit "out.txt")
           (lit "expected.txt") (lit "1") (lit "1") (lit "6" ++ [NL])
           (lit "5" ++ [NL]) false); reflexivity.
Defined.

Ltac no_verdict :=
  cbn [stdout fst app In];
  let H := fresh in
  intros H;
  repeat match goal with
         | H : _ \/ _ |- _ => destruct H
         | H : False |- _ => contradiction
         | H : _ = _ |- _ => solve [vm_compute in H; discriminate]
         end.

Ltac has_verdict :=
  cbn [stdout fst app In];
  first [ left; solve [repeat first [left; reflexivity | right]]
        | right; solve [repeat first [left; reflexivity | right]] ].

(** X15. The verdict is written exactly on the runs that return nil: a
    run that returns an error has written neither "Output matches the
    expected output!" nor "Output differs from expected:", and a run that
    returns nil has written one of the two. *)
Theorem X15_verdict_iff_nil :
  forall (w : World) (lang src inp out exp : gostring) (cleanup : bool),
    let verdict_of (r : M (option error)) :=
      match result r with
      | Ret None =>
          In matches_message (stdout r) \/ In differs_message (stdout r)
      | Ret (Some _) =>
          ~ In matches_message (stdout r) /\ ~ In differs_message (stdout r)
      | Panic => False
      end in
    verdict_of (Unified.compileAndRun w lang src inp out exp)
    /\ verdict_of (Table.compileAndRun w lang src inp out exp cleanup).
Proof.
  intros w lang src inp out exp cleanup verdict_of. subst verdict_of.
  unfold matches_message, differs_message. split.
  - unfold Unified.compileAndRun. run_paths; diff_writes; run_unfold;
      cbn [result snd];
      first [ split; no_verdict | has_verdict ].
  - unfold Table.compileAndRun. run_paths; diff_writes; run_unfold;
      cbn [result snd];
      first [ split; no_verdict | has_verdict ].
Qed.

(** X16. [detectLang] only ever returns a language that [compileAndRun]
    knows, and for any other extension its error names the extension:
    a detected language is never refused as unsupported. *)
Theorem X16_detectLang_supported :
  forall (w : World) (src : gostring),
    match Table.detectLang w src with
    | inl lang =>
        supported lang
        /\ forall inp out exp cleanup,
             result (Table.compileAndRun w lang src inp out exp cleanup)
             <> Ret (Some (lit "unsupported language: " ++ lang))
    | inr err => err = lit "unsupported file extension: " ++ filepath_Ext w src
    end.
Proof.
  intros w src. unfold Table.detectLang. cbv zeta.
  repeat match goal with
         | |- context [string_eqb ?x (lit ?s)] =>
             destruct (string_eqb x (lit s))
         end; cbn [orb]; try reflexivity;
    (split; [unfold supported; cbn [In]; tauto|]);
    intros inp out exp cleanup; unfold Table.compileAndRun; eval_langs;
    cbv iota; run_paths; diff_writes; run_unfold; cbn [result snd];
    intros H; vm_compute in H; discriminate.
Qed.

(** ** The entry points *)

Lemma require_files_spec (p : Process) (files : list gostring) (k : M Z) :
  require_files p files k
  = match first_missing p files with
    | Some f => ([missing_message f], Ret 1)
    | None => k
    end.
Proof.
  unfold first_missing.
  induction files as [|f files IH]; [reflexivity|].
  cbn [require_files find]. destruct (Stat_IsNotExist p f); [reflexivity|exact IH].
Qed.




(** X18. [main] stops before anything is built or run when it is called
    wrongly: with the wrong number of arguments it writes the usage line
    and exits with status 1, and when the source, the input or the
    expected output file does not exist it writes "Error: <file> does not
    exist." for the first of them that is missing and exits with status
    1. The output file is not among the files it looks for. The second
    revision looks at the extension of the source file before it looks
    for the files: when [detectLang] fails, its error is all that is
    written, whether the files exist or not. *)
Theorem X18_main_early_exits :
  forall (w : World) (p : Process) (cleanup : bool),
    (forall osArgs, length osArgs <> 6%nat ->
                    UnifiedMain.main w p osArgs
                    = ([UnifiedMain.usage ++ [NL]], Ret 1))
    /\ (forall args, length args <> 4%nat ->
                     TableMain.main w p cleanup args
                     = ([TableMain.usage ++ [NL]], Ret 1))
    /\ (forall prog lg src inp out exp f,
           first_missing p [src; inp; exp] = Some f ->
           UnifiedMain.main w p [prog; lg; src; inp; out; exp]
           = ([missing_message f], Ret 1))
    /\ (forall src inp out exp f lang,
           first_missing p [src; inp; exp] = Some f ->
           Table.detectLang w src = inl lang ->
           result (TableMain.main w p cleanup [src; inp; out; exp]) = Ret 1
           /\ last (stdout (TableMain.main w p cleanup [src; inp; out; exp])) []
              = missing_message f
           /\ ~ In (lit "Executing..." ++ [NL])
                   (stdout (TableMain.main w p cleanup [src; inp; out; exp])))
    /\ (forall src inp out exp err,
           Table.detectLang w src = inr err ->
           TableMain.main w p cleanup [src; inp; out; exp]
           = ([lit "Error: " ++ err ++ [NL]], Ret 1)).
Proof.
  intros w p cleanup. split; [|split; [|split; [|split]]].
  - intros osArgs H. unfold UnifiedMain.main, len.
    destruct (Z.eqb_spec (Z.of_nat (length osArgs)) 6); [lia|reflexivity].
  - intros args H. unfold TableMain.main, len.
    destruct (Z.eqb_spec (Z.of_nat (length args)) 4); [lia|reflexivity].
  - intros prog lg src inp out exp f H. unfold UnifiedMain.main.
    cbn [len length Z.of_nat Z.eqb Pos.eqb negb Pos.of_succ_nat Pos.succ nth].
    now rewrite require_files_spec, H.
  - intros src inp out exp f lang H Hdet. unfold TableMain.main.
    cbn [len length Z.of_nat Z.eqb Pos.eqb negb Pos.of_succ_nat Pos.succ nth].
    rewrite Hdet, require_files_spec, H. unfold Table.logVerbose.
    destruct (verboseFlag w); cbn; (split; [reflexivity|]);
      (split; [reflexivity|]); unfold missing_message;
      intros Hin;
      repeat match goal with
             | H : _ \/ _ |- _ => destruct H
             | H : False |- _ => contradiction
             | H : _ = _ |- _ => solve [vm_compute in H; discriminate]
             end.
  - intros src inp out exp err Hdet. unfold TableMain.main.
    cbn [len length Z.of_nat Z.eqb Pos.eqb negb Pos.of_succ_nat Pos.succ nth].
    now rewrite Hdet.
Qed.

Lemma X18_witness :
  UnifiedMain.main sample_world missing_input_process
    [lit "runner"; lit "go"; lit "sol.go"; lit "in.txt"; lit "out.txt";
     lit "expected.txt"]
  = ([lit "Error: in.txt does not exist." ++ [NL]], Ret 1).
Proof.
  apply (proj1 (proj2 (proj2 (X18_main_early_exits sample_world
                                missing_input_process false)))
           (lit "runner") (lit "go") (lit "sol.go") (lit "in.txt")
           (lit "out.txt") (lit "expected.txt") (lit "in.txt")).
  reflexivity.
Defined.

(** *** The name of the language *)

Lemma lower_byte_ascii (c : byte) :
  b2z c < 128 ->
  b2z (lower_byte c) < 128 /\ is_upper (lower_byte c) = false
  /\ (is_upper c = false -> lower_byte c = c).
Proof.
  intros H. revert H.
  destruct c as [[] [] [] [] [] [] [] []]; vm_compute;
    intros; repeat split; congruence.
Qed.

Lemma map_lower_ascii (s : gostring) :
  is_ascii s = true ->
  is_ascii (map lower_byte s) = true
  /\ existsb is_upper (map lower_byte s) = false.
Proof.
  induction s as [|c s IH]; [now split|].
  cbn [is_ascii forallb map existsb] in *. rewrite andb_true_iff.
  intros [Hc Hs]. unfold utf8.RuneSelf in *. apply Z.ltb_lt in Hc.
  destruct (lower_byte_ascii c Hc) as (H1 & H2 & _).
  destruct (IH Hs) as [I1 I2].
  split.
  - apply andb_true_iff. split; [now apply Z.ltb_lt|assumption].
  - now rewrite H2, I2.
Qed.

(** X19. The first revision reads the name of the language without
    regard to the case of its ASCII letters: lowering it a second time
    changes nothing, the lowered name has no upper-case letter left, and
    [main] runs on "PYTHON" or "Go" as it runs on "python" or "go". *)
Theorem X19_language_case_insensitive :
  forall (w : World) (p : Process) (prog lg src inp out exp : gostring),
    is_ascii lg = true ->
    ToLower (Map_ToLower p) (ToLower (Map_ToLower p) lg)
    = ToLower (Map_ToLower p) lg
    /\ existsb is_upper (ToLower (Map_ToLower p) lg) = false
    /\ UnifiedMain.main w p [prog; ToLower (Map_ToLower p) lg; src; inp; out; exp]
       = UnifiedMain.main w p [prog; lg; src; inp; out; exp].
Proof.
  intros w p prog lg src inp out exp Ha.
  assert (H : ToLower (Map_ToLower p) (ToLower (Map_ToLower p) lg)
              = ToLower (Map_ToLower p) lg
              /\ existsb is_upper (ToLower (Map_ToLower p) lg) = false).
  { unfold ToLower at 2 3 4. rewrite Ha.
    destruct (existsb is_upper lg) eqn:Hu; cbn [negb].
    - destruct (map_lower_ascii lg Ha) as [H1 H2].
      unfold ToLower. now rewrite H1, H2.
    - unfold ToLower. now rewrite Ha, Hu. }
  destruct H as [H1 H2]. split; [exact H1|]. split; [exact H2|].
  unfold UnifiedMain.main. cbn [len length nth]. now rewrite H1.
Qed.

Lemma X19_witness :
  UnifiedMain.main sample_world sample_process
    [lit "runner"; lit "python"; lit "sol.py"; lit "in.txt"; lit "out.txt";
     lit "expected.txt"]
  = UnifiedMain.main sample_world sample_process
      [lit "runner"; lit "PyThon"; lit "sol.py"; lit "in.txt"; lit "out.txt";
       lit "expected.txt"].
Proof.
  exact (proj2 (proj2 (X19_language_case_insensitive sample_world sample_process
                         (lit "runner") (lit "PyThon") (lit "sol.py")
                         (lit "in.txt") (lit "out.txt") (lit "expected.txt")
                         eq_refl))).
Defined.

(** *** The verbose log *)

Lemma quiet_app (a b : list gostring) : quiet (a ++ b) = quiet a ++ quiet b.
Proof. apply filter_app. Qed.

Lemma quiet_log (x : gostring) (rest : list gostring) :
  quiet ((lit "[verbose] " ++ x ++ [NL]) :: rest) = quiet rest.
Proof. reflexivity. Qed.

Lemma quiet_keep (c : byte) (x : gostring) (rest : list gostring) :
  Ascii.eqb c "["%char = false ->
  quiet ((c :: x) :: rest) = (c :: x) :: quiet rest.
Proof.
  intros H. unfold quiet. cbn [filter]. unfold is_verbose_write.
  cbn. now rewrite H.
Qed.

Lemma quiet_tableRow (row : gostring * gostring) :
  quiet (stdout (tableRow row)) = stdout (tableRow row).
Proof.
  destruct row as [e a].
  unfold tableRow, Table.printColoredRow, Table.printPlainRow, lift.
  destruct (differing e a);
    (destruct (Table.truncate e _) as [te|]; [|reflexivity]);
    (destruct (Table.truncate a _) as [ta|]; reflexivity).
Qed.

Lemma quiet_Table_diffLines (expected actual : gostring) :
  quiet (stdout (Table.diffLines expected actual))
  = stdout (Table.diffLines expected actual).
Proof.
  rewrite Table_diffLines_rows. cbn [stdout fst].
  rewrite !quiet_app.
  change (quiet tableHeader) with tableHeader.
  change (quiet [tableFooter]) with [tableFooter].
  do 2 f_equal.
  induction (diffRows _ _) as [|row rows IH]; [reflexivity|].
  cbn [map concat]. now rewrite quiet_app, quiet_tableRow, IH.
Qed.

(** The diff as its writes, none of which is a log line. *)
Ltac quiet_diff :=
  repeat match goal with
         | |- context [Table.diffLines ?e ?a] =>
             let o := fresh "o" in let r := fresh "r" in
             let H := fresh "H" in let Hq := fresh "Hq" in
             pose proof (Table_diffLines_result e a) as H;
             pose proof (quiet_Table_diffLines e a) as Hq;
             destruct (Table.diffLines e a) as [o r];
             cbn [result stdout fst snd] in H, Hq; subst r
         end.

(** Filter the writes one by one. *)
Ltac quiet_writes :=
  repeat match goal with
         | |- context [quiet (?x :: ?r)] =>
             first [ change (quiet (x :: r)) with (quiet r)
                   | change (quiet (x :: r)) with (x :: quiet r) ]
         | |- context [quiet (?a ++ ?b)] => rewrite (quiet_app a b)
         | |- context [quiet []] => change (quiet []) with (@nil gostring)
         end.

Lemma run_quiet :
  forall (w : World) (lang src inp out exp : gostring) (cleanup : bool),
    result (Table.compileAndRun (with_verbose w false) lang src inp out exp
                                cleanup)
    = result (Table.compileAndRun w lang src inp out exp cleanup)
    /\ stdout (Table.compileAndRun (with_verbose w false) lang src inp out exp
                                   cleanup)
       = quiet (stdout (Table.compileAndRun w lang src inp out exp cleanup)).
Proof.
  intros w lang src inp out exp cleanup.
  unfold Table.compileAndRun. run_paths; quiet_diff; run_unfold;
    cbn [result stdout fst snd app]; (split; [reflexivity|]).
  all: quiet_writes; rewrite ?Hq; reflexivity.
Qed.

(** X20. The flag [--verbose] only adds log lines. A run with the flag
    returns what the run without it returns, and what the run without it
    writes is what the run with it writes less the writes of
    [logVerbose], those that start with "[verbose] ": no other write of
    the runner, not even a row of the table, is taken for a log line, and
    no log line is written when the flag is off. The same holds of
    [main] as a whole. *)
Theorem X20_verbose_only_adds_log_lines :
  forall (w : World) (p : Process) (lang src inp out exp : gostring)
         (cleanup : bool) (args : list gostring),
    (result (Table.compileAndRun (with_verbose w false) lang src inp out exp
                                 cleanup)
     = result (Table.compileAndRun w lang src inp out exp cleanup)
     /\ stdout (Table.compileAndRun (with_verbose w false) lang src inp out exp
                                    cleanup)
        = quiet (stdout (Table.compileAndRun w lang src inp out exp cleanup)))
    /\ (result (TableMain.main (with_verbose w false) p cleanup args)
        = result (TableMain.main w p cleanup args)
        /\ stdout (TableMain.main (with_verbose w false) p cleanup args)
           = quiet (stdout (TableMain.main w p cleanup args))).
Proof.
  intros w p lang src inp out exp cleanup args.
  split; [apply run_quiet|]. clear lang src inp out exp.
  unfold TableMain.main.
  destruct (negb (len args =? 4)); [split; reflexivity|].
  change (Table.detectLang (with_verbose w false) (nth 0 args []))
    with (Table.detectLang w (nth 0 args [])).
  destruct (Table.detectLang w (nth 0 args [])) as [lang|err];
    [|split; reflexivity].
  rewrite !require_files_spec.
  destruct (run_quiet w lang (nth 0 args []) (nth 1 args []) (nth 2 args [])
              (nth 3 args []) cleanup) as [Hr Hs].
  destruct (Table.compileAndRun (with_verbose w false) _ _ _ _ _ _)
    as [o' r'].
  destruct (Table.compileAndRun w _ _ _ _ _ _) as [o r].
  cbn [result stdout fst snd] in Hr, Hs. subst o' r'.
  unfold Table.logVerbose. cbn [verboseFlag with_verbose].
  destruct (first_missing p _) as [f|], (verboseFlag w), r as [[e|]|];
    run_unfold; cbn [result stdout fst snd app]; (split; [reflexivity|]);
    quiet_writes; rewrite ?app_nil_r; reflexivity.
Qed.

(** *** The build directory *)

(** X21. The flag [--cleanup] never changes what a run returns, and the
    removal of the build directory is the very last step of a run that
    returns nil: a run that stops on an error is, in what it writes and
    returns, the run without the flag, with no removal logged and none
    that can fail. After a run that returns nil the removal is logged
    when verbose, and a removal that fails is only a warning, written
    last. *)
Theorem X21_cleanup_only_after_success :
  forall (w : World) (lang src inp out exp : gostring),
    let plain := Table.compileAndRun w lang src inp out exp false in
    let tidy := Table.compileAndRun w lang src inp out exp true in
    result tidy = result plain
    /\ (forall e, result plain = Ret (Some e) -> tidy = plain)
    /\ (result plain = Ret None ->
        stdout tidy
        = stdout plain
            ++ (if verboseFlag w
                then [lit "[verbose] Removing build directory: build" ++ [NL]]
                else [])
            ++ match os_RemoveAll w (lit "build") with
               | Some e =>
                   [lit "Warning: failed to remove build directory: "
                      ++ e ++ [NL]]
               | None => []
               end).
Proof.
  intros w lang src inp out exp plain tidy. subst plain tidy.
  unfold Table.compileAndRun.
  run_paths; diff_writes; run_unfold; cbn [result stdout fst snd app];
    (split; [reflexivity|]);
    (split; [intros e' He'; first [reflexivity | discriminate]|]);
    intros Hnil; try discriminate;
    rewrite <- ?app_assoc, ?app_nil_r; reflexivity.
Qed.
